(** * The content-generation route: brand-voice analysis, per-format
      generation and the request handler

    A shallow embedding of [analyzeBrandVoice], [generateContentForFormat]
    and [POST] (the route handler of the content studio), together with the
    JavaScript built-ins those functions rely on: string methods, the two
    regular expressions of the lenient JSON extraction, [JSON.parse] and
    [Promise.all].

    Modelling conventions.
    - A JavaScript string is a [string], the UTF-8 bytes of its text; the
      case mapping and the white-space class cover the ASCII range, other
      bytes are left as they are.
    - A JavaScript number is an exact rational ([Q]); rounding of doubles is
      not modelled.
    - Values whose runtime shape the code itself inspects (request fields
      holding brand-voice data, the parsed model reply) are dynamically
      typed [value]s; objects are finite maps from property names.
    - The model gateway ([anthropic.messages.create]) is an oracle indexed by
      the number of the call; every call is recorded in a log.
    - The messages of the [TypeError]s of the language are those of V8.
    - Console logging is not modelled.

    The handlers of the studio's forms ([toggleFormat],
    [handleIndustryChange], [handleGenerate], [handleAnalyze]) and
    [getConsistencyColor] of the dashboard are embedded as well, to state
    what the forms and the route do together. *)

From Stdlib Require Import String Ascii List Bool Arith ZArith QArith Qminmax Lia.
From Stdlib Require Import DecimalString.
From Stdlib Require Import Lqa.
From stdpp Require Import base list strings gmap.

Set Warnings "-register-all".
Open Scope string_scope.

(** ** JavaScript values *)

Inductive value : Type :=
| VUndefined
| VNull
| VBool (b : bool)
| VNum (q : Q)
| VStr (s : string)
| VArr (l : list value)
| VObj (fields : gmap string value).

(** An object literal [{k1: v1, ...}]. *)
Definition obj (l : list (string * value)) : value := VObj (list_to_map l).

Module JS.

(** *** Strings *)

Definition code (c : ascii) : nat := nat_of_ascii c.

Definition isUpper (c : ascii) : bool :=
  ((65 <=? code c) && (code c <=? 90))%nat.

Definition lowerChar (c : ascii) : ascii :=
  if isUpper c then ascii_of_nat (code c + 32)%nat else c.

(** [s.toLowerCase()] *)
Fixpoint toLowerCase (s : string) : string :=
  match s with
  | "" => ""
  | String c s' => String (lowerChar c) (toLowerCase s')
  end.

(** [s.startsWith(p)] *)
Fixpoint startsWith (s p : string) {struct p} : bool :=
  match p with
  | "" => true
  | String a p' =>
      match s with
      | "" => false
      | String b s' => if Ascii.eqb a b then startsWith s' p' else false
      end
  end.

(** [s.includes(t)] *)
Fixpoint includes (s t : string) {struct s} : bool :=
  startsWith s t ||
  match s with
  | "" => false
  | String _ s' => includes s' t
  end.

(** White space of [String.prototype.trim] and of the class [\s]. *)
Definition isSpace (c : ascii) : bool :=
  let n := code c in (((9 <=? n) && (n <=? 13)) || (n =? 32))%nat.

Fixpoint trimStart (s : string) : string :=
  match s with
  | "" => ""
  | String c s' => if isSpace c then trimStart s' else s
  end.

Fixpoint trimEnd (s : string) : string :=
  match s with
  | "" => ""
  | String c s' =>
      let r := trimEnd s' in
      if isSpace c && String.eqb r "" then "" else String c r
  end.

(** [s.trim()] *)
Definition trim (s : string) : string := trimEnd (trimStart s).

(** The text after the first occurrence of [c], if there is one. *)
Fixpoint afterChar (c : ascii) (s : string) : option string :=
  match s with
  | "" => None
  | String a s' => if Ascii.eqb a c then Some s' else afterChar c s'
  end.

(** The text before the first occurrence of [c] (all of [s] without one). *)
Fixpoint beforeChar (c : ascii) (s : string) : string :=
  match s with
  | "" => ""
  | String a s' => if Ascii.eqb a c then "" else String a (beforeChar c s')
  end.

(** [s.split(c)[1]] *)
Definition split_1 (c : ascii) (s : string) : option string :=
  beforeChar c <$> afterChar c s.

(** The first [n] code units of [s]. *)
Definition take (n : nat) (s : string) : string := substring 0 n s.

(** Decimal rendering of a natural number, as a template literal does. *)
Definition natToString (n : nat) : string :=
  NilEmpty.string_of_uint (Nat.to_uint n).

(** *** Regular expressions

    The fragment of the regular-expression language that the source uses,
    with the backtracking semantics of the language: alternatives are tried
    in priority order (greedy quantifiers take the longest repetition first)
    and the first success wins; [exec] tries the start positions from left
    to right. *)

Inductive regex : Type :=
| Eps                           (* the empty pattern *)
| Chr (c : ascii)               (* a literal character *)
| Star (p : ascii -> bool)      (* [p*] for a one-character class [p] *)
| Opt (r : regex)               (* [(?:r)?] *)
| Seq (r1 r2 : regex)           (* [r1 r2] *)
| Group (r : regex).            (* the capturing group [(r)] *)

(** A literal word, character by character, followed by [r]. *)
Fixpoint word (w : string) (r : regex) : regex :=
  match w with
  | "" => r
  | String c w' => Seq (Chr c) (word w' r)
  end.

(** Greedy repetition: consume while [p] holds, then give characters back
    one at a time until the continuation succeeds. *)
Fixpoint star {A} (p : ascii -> bool) (s : string) (k : string -> option A)
  : option A :=
  match s with
  | String c s' =>
      if p c then
        match star p s' k with
        | Some r => Some r
        | None => k s
        end
      else k s
  | "" => k s
  end.

(** [rmatch r s cap k]: match [r] at the start of [s]; the continuation
    receives the rest of the input and the text of capture group 1. *)
Fixpoint rmatch {A} (r : regex) (s : string) (cap : option string)
    (k : string -> option string -> option A) : option A :=
  match r with
  | Eps => k s cap
  | Chr c =>
      match s with
      | String a s' => if Ascii.eqb a c then k s' cap else None
      | "" => None
      end
  | Star p => star p s (fun s' => k s' cap)
  | Opt r1 =>
      match rmatch r1 s cap k with
      | Some x => Some x
      | None => k s cap
      end
  | Seq r1 r2 => rmatch r1 s cap (fun s1 cap1 => rmatch r2 s1 cap1 k)
  | Group r1 =>
      rmatch r1 s cap
        (fun s' _ => k s' (Some (take (String.length s - String.length s') s)))
  end.

(** The result of [text.match(re)]: the matched text [m[0]] and the text of
    capture group 1, [m[1]]. *)
Record MatchResult : Type := { m0 : string; m1 : option string }.

(** [text.match(re)] for a regular expression without the global flag. *)
Fixpoint exec (r : regex) (s : string) : option MatchResult :=
  match rmatch r s None (fun rest cap => Some (rest, cap)) with
  | Some (rest, cap) =>
      Some {| m0 := take (String.length s - String.length rest) s; m1 := cap |}
  | None =>
      match s with
      | "" => None
      | String _ s' => exec r s'
      end
  end.

Definition anyChar (c : ascii) : bool := true.

(** *** JSON.parse

    A recursive-descent parser for the JSON grammar. Numbers are read as
    exact rationals; a [\uXXXX] escape is decoded on its own into the UTF-8
    bytes of its code unit. *)

Definition dquote : ascii := "034"%char.

Definition isJsonSpace (c : ascii) : bool :=
  let n := code c in ((n =? 32) || (n =? 9) || (n =? 10) || (n =? 13))%nat.

Fixpoint skipSpace (s : string) : string :=
  match s with
  | "" => ""
  | String c s' => if isJsonSpace c then skipSpace s' else s
  end.

Definition digitOf (c : ascii) : option Z :=
  let n := code c in
  if ((48 <=? n) && (n <=? 57))%nat then Some (Z.of_nat (n - 48)) else None.

Definition hexOf (c : ascii) : option nat :=
  let n := code c in
  if ((48 <=? n) && (n <=? 57))%nat then Some (n - 48)%nat
  else if ((97 <=? n) && (n <=? 102))%nat then Some (n - 87)%nat
  else if ((65 <=? n) && (n <=? 70))%nat then Some (n - 55)%nat
  else None.

(** A run of decimal digits: its value, its length and the rest. *)
Fixpoint digits (acc : Z) (n : nat) (s : string) : Z * nat * string :=
  match s with
  | "" => (acc, n, s)
  | String c s' =>
      match digitOf c with
      | Some d => digits (acc * 10 + d)%Z (S n) s'
      | None => (acc, n, s)
      end
  end.

(** A JSON number: an optional minus sign, an integer part without
    leading zero, an optional fraction and an optional exponent. *)
Definition parseNumber (s : string) : option (Q * string) :=
  let '(neg, s1) :=
    match s with
    | String "-"%char r => (true, r)
    | _ => (false, s)
    end in
  '(ip, s2) ←
    match s1 with
    | String "0"%char r => Some (0%Z, r)
    | _ => let '(v, n, r) := digits 0 0 s1 in
           if (n =? 0)%nat then None else Some (v, r)
    end;
  '(fp, s3) ←
    match s2 with
    | String "."%char r =>
        let '(v, n, r') := digits 0 0 r in
        if (n =? 0)%nat then None
        else Some ((inject_Z v / inject_Z (10 ^ Z.of_nat n))%Q, r')
    | _ => Some (0%Q, s2)
    end;
  '(ex, s4) ←
    match s3 with
    | String c r =>
        if Ascii.eqb c "e" || Ascii.eqb c "E" then
          let '(sign, r1) :=
            match r with
            | String "-"%char r' => ((-1)%Z, r')
            | String "+"%char r' => (1%Z, r')
            | _ => (1%Z, r)
            end in
          let '(v, n, r2) := digits 0 0 r1 in
          if (n =? 0)%nat then None else Some ((sign * v)%Z, r2)
        else Some (0%Z, s3)
    | "" => Some (0%Z, s3)
    end;
  let m := ((inject_Z ip + fp) * Qpower 10 ex)%Q in
  Some (if neg : bool then Qopp m else m, s4).

(** The UTF-8 bytes of a code unit below 65536. *)
Definition utf8 (n : nat) : string :=
  if (n <? 128)%nat then String (ascii_of_nat n) ""
  else if (n <? 2048)%nat then
    String (ascii_of_nat (192 + n / 64)) (String (ascii_of_nat (128 + n mod 64)) "")
  else
    String (ascii_of_nat (224 + n / 4096))
      (String (ascii_of_nat (128 + (n / 64) mod 64))
         (String (ascii_of_nat (128 + n mod 64)) "")).

(** The character written [\e] for a one-letter escape. *)
Definition escapeChar (e : ascii) : option ascii :=
  if Ascii.eqb e dquote then Some dquote
  else if Ascii.eqb e "\" then Some "\"%char
  else if Ascii.eqb e "/" then Some "/"%char
  else if Ascii.eqb e "b" then Some "008"%char
  else if Ascii.eqb e "f" then Some "012"%char
  else if Ascii.eqb e "n" then Some "010"%char
  else if Ascii.eqb e "r" then Some "013"%char
  else if Ascii.eqb e "t" then Some "009"%char
  else None.

(** The characters of a string literal after its opening quote, decoded, and
    the text after the closing quote. *)
Fixpoint parseChars (s : string) : option (string * string) :=
  match s with
  | "" => None
  | String c r =>
      if Ascii.eqb c dquote then Some ("", r)
      else if Ascii.eqb c "\" then
        match r with
        | String e r' =>
            if Ascii.eqb e "u" then
              match r' with
              | String h1 (String h2 (String h3 (String h4 r''))) =>
                  a ← hexOf h1; b ← hexOf h2; c' ← hexOf h3; d ← hexOf h4;
                  '(t, rest) ← parseChars r'';
                  Some (utf8 (((a * 16 + b) * 16 + c') * 16 + d) ++ t, rest)
              | _ => None
              end
            else
              ch ← escapeChar e;
              '(t, rest) ← parseChars r';
              Some (String ch t, rest)
        | "" => None
        end
      else if (code c <? 32)%nat then None
      else '(t, rest) ← parseChars r; Some (String c t, rest)
  end.

(** A keyword ([true], [false], [null]) at the start of [s]. *)
Definition keyword (w : string) (v : value) (s : string)
  : option (value * string) :=
  if startsWith s w then Some (v, substring (String.length w) (String.length s) s)
  else None.

Fixpoint parseValue (fuel : nat) (s : string) {struct fuel}
  : option (value * string) :=
  match fuel with
  | O => None
  | S f =>
      match skipSpace s with
      | "" => None
      | String c r =>
          if Ascii.eqb c "{" then
            match skipSpace r with
            | String "}"%char r' => Some (VObj ∅, r')
            | r0 => parseMembers f ∅ r0
            end
          else if Ascii.eqb c "[" then
            match skipSpace r with
            | String "]"%char r' => Some (VArr [], r')
            | _ => parseElements f [] r
            end
          else if Ascii.eqb c dquote then
            '(t, rest) ← parseChars r; Some (VStr t, rest)
          else if Ascii.eqb c "t" then keyword "true" (VBool true) (String c r)
          else if Ascii.eqb c "f" then keyword "false" (VBool false) (String c r)
          else if Ascii.eqb c "n" then keyword "null" VNull (String c r)
          else '(q, rest) ← parseNumber (String c r); Some (VNum q, rest)
      end
  end
with parseMembers (fuel : nat) (acc : gmap string value) (s : string)
    {struct fuel} : option (value * string) :=
  match fuel with
  | O => None
  | S f =>
      match s with
      | String c r =>
          if Ascii.eqb c dquote then
            '(key, r1) ← parseChars r;
            match skipSpace r1 with
            | String ":"%char r2 =>
                '(v, r3) ← parseValue f r2;
                match skipSpace r3 with
                | String ","%char r4 =>
                    parseMembers f (<[key := v]> acc) (skipSpace r4)
                | String "}"%char r4 => Some (VObj (<[key := v]> acc), r4)
                | _ => None
                end
            | _ => None
            end
          else None
      | "" => None
      end
  end
with parseElements (fuel : nat) (acc : list value) (s : string)
    {struct fuel} : option (value * string) :=
  match fuel with
  | O => None
  | S f =>
      '(v, r1) ← parseValue f s;
      match skipSpace r1 with
      | String ","%char r2 => parseElements f (acc ++ [v]) r2
      | String "]"%char r2 => Some (VArr (acc ++ [v]), r2)
      | _ => None
      end
  end.

(** [JSON.parse(text)]; [None] stands for the [SyntaxError] it throws.
    The fuel bounds the number of nested calls; each call follows at least
    one consumed character, so one more than the length of the text is
    enough. *)
Definition parse (text : string) : option value :=
  '(v, rest) ← parseValue (S (String.length text)) text;
  if String.eqb (skipSpace rest) "" then Some v else None.

(** Texts holding double quotes are written with ['] in their place. *)
Fixpoint q (s : string) : string :=
  match s with
  | "" => ""
  | String c s' => String (if Ascii.eqb c "'" then dquote else c) (q s')
  end.

End JS.

(** ** Operations on values *)

(** [ToBoolean]: the values that count as true in a condition. *)
Definition truthy (v : value) : bool :=
  match v with
  | VUndefined | VNull => false
  | VBool b => b
  | VNum x => negb (Qeq_bool x 0)
  | VStr s => negb (String.eqb s "")
  | VArr _ | VObj _ => true
  end.

(** [v.p] for a value [v] other than [undefined] and [null]. The property
    names the source reads ([content], [text], [type], [textContent],
    [mimeType], [tone], [style], [terminology], [structure]) are own
    properties of objects only; strings, numbers, booleans and arrays have
    none of them. *)
Definition get (v : value) (p : string) : value :=
  match v with
  | VObj fields => default VUndefined (fields !! p)
  | _ => VUndefined
  end.

(** [typeof v === 'string'] *)
Definition isString (v : value) : bool :=
  match v with VStr _ => true | _ => false end.

(** [v === s] for a string literal [s] *)
Definition isStr (v : value) (s : string) : bool :=
  match v with VStr t => String.eqb t s | _ => false end.

(** [a || b] *)
Definition orElse (a b : value) : value := if truthy a then a else b.

Definition nl : string := String "010"%char "".

(** ** The model gateway *)

(** A template literal: literal text, interpolated values (rendered by
    [ToString] when the string is built) and joined arrays. *)
Inductive piece : Type :=
| Lit (s : string)
| Sub (v : value)
| Join (l : list value) (sep : string).

Definition template : Type := list piece.

(** An element of the [content] array of a user message. *)
Inductive ContentBlockParam : Type :=
| TextParam (text : string)
| ImageParam (media_type : value) (data : string).

Inductive UserContent : Type :=
| PromptText (prompt : template)
| PromptBlocks (messageContent : list ContentBlockParam).

(** The argument of [anthropic.messages.create]; [messages] is the content
    of its single user message. *)
Record MessageCreateParams : Type := {
  model : string;
  max_tokens : nat;
  messages : UserContent
}.

(** An element of [message.content]: a text block, or a block of another
    type. *)
Inductive ContentBlock : Type :=
| TextBlock (text : string)
| OtherBlock.

(** A thrown value: an [Error] with its message, or something else with its
    [String(...)] rendering. *)
Inductive Thrown : Type :=
| ErrorObject (message : string)
| NonError (rendering : string).

Inductive Reply : Type :=
| Resolved (content : list ContentBlock)
| Rejected (e : Thrown).

(** The gateway answers the [n]-th call made while serving a request. *)
Definition Gateway : Type := nat -> MessageCreateParams -> Reply.

(** [process.env] *)
Record Env : Type := {
  ANTHROPIC_API_KEY : option string;
  CLAUDE_MODEL : option string
}.

(** [process.env.CLAUDE_MODEL || "claude-3-5-sonnet-20240620"] *)
Definition modelOf (env : Env) : string :=
  match CLAUDE_MODEL env with
  | Some m => if String.eqb m "" then "claude-3-5-sonnet-20240620" else m
  | None => "claude-3-5-sonnet-20240620"
  end.

(** [error instanceof Error ? error.message : String(error)] *)
Definition errorMessage (e : Thrown) : string :=
  match e with
  | ErrorObject message => message
  | NonError rendering => rendering
  end.

(** ** Generated content, requests and responses *)

Record GeneratedContent : Type := {
  format : string;
  content : string;
  consistencyScore : option Q
}.

(** The typed view of a profile, [BrandVoiceAnalysis]. *)
Record BrandVoiceAnalysis : Type := {
  tone : string;
  style : string;
  terminology : list string;
  structure : string
}.

(** The object a typed profile stands for. *)
Definition profileValue (p : BrandVoiceAnalysis) : value :=
  obj [("tone", VStr (tone p)); ("style", VStr (style p));
       ("terminology", VArr (VStr <$> terminology p));
       ("structure", VStr (structure p))].

(** The parsed body of a request. [topic], [industry] and [formats] have
    their declared types and may be absent; the two brand-voice fields are
    raw values, whose shape the handler inspects at run time ([VUndefined]
    when absent). *)
Record RequestBody : Type := {
  topic : option string;
  industry : option string;
  formats : option (list string);
  brandVoice : value;
  brandVoiceExamples : value
}.

Inductive ResponseBody : Type :=
| ErrorBody (error : string)
| ResultBody (contents : list GeneratedContent) (brandVoiceAnalysis : value).

(** [NextResponse.json(body, { status })] *)
Record Response : Type := { status : nat; body : ResponseBody }.

(** A string that is present and not empty. *)
Definition isSet (s : option string) : bool :=
  match s with
  | Some t => negb (String.eqb t "")
  | None => false
  end.

(** [!formats || formats.length === 0] *)
Definition isEmpty (formats : option (list string)) : bool :=
  match formats with
  | Some (_ :: _) => false
  | _ => true
  end.

Definition formatInstructions : gmap string string :=
  list_to_map
    [("blog", "Write a comprehensive blog post (800-1200 words) that is SEO-optimized with a clear introduction, body sections, and conclusion.");
     ("linkedin", "Write 3 LinkedIn posts (varying angles: thought leadership, stats-focused, question-based). Each should be engaging and professional.");
     ("twitter", "Write 5 Twitter posts (bite-sized insights from the topic). Each should be concise, engaging, and under 280 characters.");
     ("google-ads", "Write 3 Google Ad variations for A/B testing. Include headlines and descriptions following Google Ads best practices.");
     ("instagram", "Write 3 Instagram post captions with relevant hashtags. Each should be engaging, visually descriptive, and include a call-to-action.");
     ("facebook", "Write 3 Facebook posts with varying formats (text-only, link preview style, question-based). Each should encourage engagement.");
     ("email", "Write a professional email campaign with subject line, preheader text, and body content optimized for email marketing.");
     ("newsletter", "Write a newsletter-style content piece with a compelling subject line, introduction, main content sections, and a clear call-to-action.")].

(** A brand voice as the generator sees it once the prompt is built: none,
    or a truthy value whose [terminology] is an array. *)
Inductive Voice : Type :=
| NoVoice
| WithVoice (terms : list value).

(** Building the brand-voice block calls [brandVoice.terminology.join]: for
    a truthy brand voice whose [terminology] is not an array this throws a
    [TypeError], before the [try] and before any gateway call. *)
Definition voiceOf (brandVoice : value) : Thrown + Voice :=
  if truthy brandVoice then
    match get brandVoice "terminology" with
    | VArr terms => inr (WithVoice terms)
    | VUndefined =>
        inl (ErrorObject "Cannot read properties of undefined (reading 'join')")
    | VNull =>
        inl (ErrorObject "Cannot read properties of null (reading 'join')")
    | _ => inl (ErrorObject "brandVoice.terminology.join is not a function")
    end
  else inr NoVoice.

Definition brandVoiceContext (brandVoice : value) (voice : Voice) : template :=
  match voice with
  | NoVoice => [Lit ""]
  | WithVoice terms =>
      [Lit (nl ++ nl ++ "Brand Voice Guidelines:" ++ nl ++ "- Tone: ");
       Sub (get brandVoice "tone"); Lit (nl ++ "- Style: ");
       Sub (get brandVoice "style"); Lit (nl ++ "- Key Terminology: ");
       Join terms ", "; Lit (nl ++ "- Structure: ");
       Sub (get brandVoice "structure");
       Lit (nl ++ nl ++ "Match this brand voice exactly in your writing.")]
  end.

(** The number of terms kept by
    [terminology.filter(term => contentText.includes(term.toLowerCase()))];
    the first term that is not a string has no [toLowerCase] to call. *)
Fixpoint matchingTerms (contentText : string) (terms : list value)
  : Thrown + nat :=
  match terms with
  | [] => inr 0%nat
  | VStr term :: rest =>
      match matchingTerms contentText rest with
      | inr k =>
          inr (if JS.includes contentText (JS.toLowerCase term) then S k else k)
      | inl e => inl e
      end
  | VUndefined :: _ =>
      inl (ErrorObject "Cannot read properties of undefined (reading 'toLowerCase')")
  | VNull :: _ =>
      inl (ErrorObject "Cannot read properties of null (reading 'toLowerCase')")
  | _ :: _ => inl (ErrorObject "term.toLowerCase is not a function")
  end.

(** [Math.min(95, 70 + (matchingTerms / length) * 25)] *)
Definition scoreFormula (matching total : nat) : Q :=
  (Qmin 95 (70 + (inject_Z (Z.of_nat matching) / inject_Z (Z.of_nat total)) * 25))%Q.

(** The consistency score of a generated text: the formula for a brand
    voice with terms, 75 for one without, none without brand voice. *)
Definition consistencyScoreOf (voice : Voice) (text : string)
  : Thrown + option Q :=
  match voice with
  | NoVoice => inr None
  | WithVoice [] => inr (Some 75%Q)
  | WithVoice terms =>
      match matchingTerms (JS.toLowerCase text) terms with
      | inr k => inr (Some (scoreFormula k (length terms)))
      | inl e => inl e
      end
  end.

Definition errorContent (format errorMessage : string) : GeneratedContent :=
  {| format := format;
     content := "Error generating " ++ format ++ " content: " ++ errorMessage
                ++ ". Please check your API key and try again.";
     consistencyScore := None |}.

(** [{ type: 'text', content: ex }] *)
Definition textExample (ex : value) : value :=
  obj [("type", VStr "text"); ("content", ex)].

(** The examples the handler works with: nothing unless
    [brandVoiceExamples] is a non-empty array; every element wrapped as a
    text example when the first one is a string; the array as it is
    otherwise. *)
Definition examplesToUse (brandVoiceExamples : value) : list value :=
  match brandVoiceExamples with
  | VArr ((first :: _) as l) => if isString first then textExample <$> l else l
  | _ => []
  end.

(** The response of the outer [catch]. *)
Definition internalError (e : Thrown) : Response :=
  {| status := 500;
     body := ErrorBody ("Internal server error: " ++
               match e with
               | ErrorObject message => message
               | NonError _ => "Unknown error occurred"
               end) |}.

(** *** Promise.all

    The outcomes are those of the input promises, [inl] for a rejection;
    [schedule] lists the order in which they settle. A fulfilment fills the
    slot of its index; the result is fulfilled with the slots, in index
    order, once all are filled, and rejected at the first rejection. A
    schedule that ends before that leaves the result pending ([None]). *)
Fixpoint settle {A} (outcomes : list (Thrown + A)) (slots : list (option A))
    (schedule : list nat) : option (Thrown + list A) :=
  match mapM id slots with
  | Some values => Some (inr values)
  | None =>
      match schedule with
      | [] => None
      | i :: rest =>
          match outcomes !! i with
          | Some (inl e) => Some (inl e)
          | Some (inr v) => settle outcomes (<[i := Some v]> slots) rest
          | None => settle outcomes slots rest
          end
      end
  end.

Definition Promise_all {A} (outcomes : list (Thrown + A)) (schedule : list nat)
  : option (Thrown + list A) :=
  settle outcomes (replicate (length outcomes) None) schedule.

(** ** Brand-voice analysis *)

(** The fallback profile. *)
Definition defaultProfile : value :=
  obj [("tone", VStr "professional"); ("style", VStr "clear and concise");
       ("terminology", VArr []); ("structure", VStr "standard")].

(** A string becomes a text example; examples without [content] and [text]
    are filtered out. *)
Definition processedExamples (examples : list value) : list value :=
  List.filter
    (fun ex => truthy ex && truthy (orElse (get ex "content") (get ex "text")))
    ((fun ex => if isString ex then textExample ex else ex) <$> examples).

Definition hasImages (processed : list value) : bool :=
  existsb (fun ex => isStr (get ex "type") "image") processed.

Definition textPrompt (images : bool) : string :=
  "Analyze the brand voice and writing style from these example content pieces. "
  ++ (if images then "For images, analyze the visual style, color schemes, typography, layout, and overall design aesthetic. For text, analyze writing style, tone, terminology, and structure. " else "")
  ++ "Provide a detailed analysis in JSON format with:" ++ nl
  ++ JS.q "- tone: The overall tone (e.g., 'conversational', 'professional', 'data-driven')" ++ nl
  ++ JS.q "- style: Writing style characteristics (e.g., 'short paragraphs', 'bullet points', 'narrative')"
  ++ (if images then JS.q " and visual style (e.g., 'minimalist', 'bold colors', 'modern typography')" else "")
  ++ nl
  ++ "- terminology: Array of key terms and jargon used" ++ nl
  ++ "- structure: How content is typically structured" ++ nl
  ++ nl
  ++ "Examples:".

Definition imageFailed (i : nat) : ContentBlockParam :=
  TextParam (nl ++ "Example " ++ JS.natToString (i + 1)
             ++ " (Image upload failed, please try again):" ++ nl).

(** The blocks an image-bearing example contributes. A [content] that is
    not a string has no [includes], [split] or [startsWith] to call, and a
    [textContent] that is not a string has no [trim]: the [TypeError] is
    caught and the failure notice is pushed, after the image block when
    that one was pushed already. The [replace] of the source is reached only
    for a content without comma, which its pattern (ending in a comma)
    cannot match, so it leaves the content unchanged; [mediaType], being
    [ex.mimeType || "image/png"], is never falsy. *)
Definition imageBlocks (i : nat) (ex : value) : list ContentBlockParam :=
  let type := get ex "type" in
  if (isStr type "image" || isStr type "mixed") && truthy (get ex "content") then
    match get ex "content" with
    | VStr content =>
        let imageData :=
          if JS.includes content "," then default content (JS.split_1 "," content)
          else if JS.startsWith content "data:" then content
          else content in
        let mediaType := orElse (get ex "mimeType") (VStr "image/png") in
        ImageParam mediaType imageData ::
        match orElse (get ex "textContent") (VStr "") with
        | VStr imageText =>
            if negb (String.eqb (JS.trim imageText) "") then
              [TextParam (nl ++ "Example " ++ JS.natToString (i + 1)
                          ++ " (Image with description): " ++ imageText ++ nl
                          ++ "Analyze both the visual style, colors, typography, design elements, AND the writing style of the description."
                          ++ nl)]
            else
              [TextParam (nl ++ "Example " ++ JS.natToString (i + 1)
                          ++ " (Image): Analyze the visual style, colors, typography, and design elements."
                          ++ nl)]
        | _ => [imageFailed i]
        end
    | _ => [imageFailed i]
    end
  else [].

(** The block the text of an example contributes. *)
Definition textBlocks (i : nat) (ex : value) : list ContentBlockParam :=
  let type := get ex "type" in
  if isStr type "text" || isStr type "mixed" || negb (truthy type) then
    let textContent :=
      if isStr type "mixed" then orElse (get ex "textContent") (get ex "content")
      else get ex "content" in
    match textContent with
    | VStr t =>
        if negb (String.eqb (JS.trim t) "") then
          [TextParam (nl ++ "Example " ++ JS.natToString (i + 1)
                      ++ (if isStr type "mixed" then " (Text description for image)" else "")
                      ++ ":" ++ nl ++ t ++ nl)]
        else []
    | _ => []
    end
  else [].

Definition exampleBlocks (i : nat) (ex : value) : list ContentBlockParam :=
  if negb (truthy ex) then [] else imageBlocks i ex ++ textBlocks i ex.

Definition replyFormat : string :=
  nl ++ "Respond with ONLY valid JSON in this format:" ++ nl
  ++ "{" ++ nl
  ++ JS.q "  'tone': '...'," ++ nl
  ++ JS.q "  'style': '...'," ++ nl
  ++ JS.q "  'terminology': ['term1', 'term2', ...]," ++ nl
  ++ JS.q "  'structure': '...'" ++ nl
  ++ "}".

Definition messageContent (processed : list value) : list ContentBlockParam :=
  TextParam (textPrompt (hasImages processed))
  :: mjoin (imap exampleBlocks processed)
  ++ [TextParam replyFormat].

(** The pattern matching a fenced block: three backticks, an optional
    [json], white space, a captured span from a [{] to a [}], white space and
    three backticks. *)
Definition fenceRegex : JS.regex :=
  JS.word "```"
    (JS.Seq (JS.Opt (JS.word "json" JS.Eps))
       (JS.Seq (JS.Star JS.isSpace)
          (JS.Seq
             (JS.Group
                (JS.Seq (JS.Chr "{") (JS.Seq (JS.Star JS.anyChar) (JS.Chr "}"))))
             (JS.Seq (JS.Star JS.isSpace) (JS.word "```" JS.Eps))))).

(** The pattern matching a span from a [{] to a [}]. *)
Definition objectRegex : JS.regex :=
  JS.Seq (JS.Chr "{") (JS.Seq (JS.Star JS.anyChar) (JS.Chr "}")).

(** The text handed to [JSON.parse]: the reply, trimmed, replaced by the
    captured span of a fenced block when there is one, then by the first
    span from a [{] to a [}] when there is one. [None] stands for the
    [TypeError] of calling [match] on an undefined capture. *)
Definition extractJSON (reply : string) : option string :=
  let text := JS.trim reply in
  text ←
    match JS.exec fenceRegex text with
    | Some jsonMatch => JS.m1 jsonMatch
    | None => Some text
    end;
  match JS.exec objectRegex text with
  | Some jsonObjectMatch => Some (JS.m0 jsonObjectMatch)
  | None => Some text
  end.

(** What the analysis makes of the gateway's reply: the parsed JSON of a
    first text block; the fallback profile when the call failed, when the
    reply has no first block (reading its [type] throws) or a first block
    that is not text, and when extraction or parsing throws. *)
Definition analysisOf (r : Reply) : value :=
  match r with
  | Resolved (TextBlock text :: _) =>
      match extractJSON text ≫= JS.parse with
      | Some analysis => analysis
      | None => defaultProfile
      end
  | _ => defaultProfile
  end.

Section Route.

Variable env : Env.
Variable create : Gateway.

Definition analysisParams (processed : list value) : MessageCreateParams :=
  {| model := modelOf env;
     max_tokens := 1000;
     messages := PromptBlocks (messageContent processed) |}.

(** [analyzeBrandVoice(examples)], as the [n]-th gateway call: the profile
    and the calls made. The guard returns the fallback unless [examples] is
    a non-empty array. *)
Definition analyzeBrandVoice (n : nat) (examples : value)
  : value * list MessageCreateParams :=
  match examples with
  | VArr ((_ :: _) as l) =>
      let params := analysisParams (processedExamples l) in
      (analysisOf (create n params), [params])
  | _ => (defaultProfile, [])
  end.

(** *** Per-format generation *)

(** The prompt of one format. [brandVoiceContext] is the block built from
    the brand voice, empty without one. *)
Definition prompt (topic industry format : string) (brandVoice : value)
    (brandVoiceContext : template) : template :=
  ([Lit "You are a professional content writer creating marketing content for ";
   Sub (VStr industry); Lit (" companies." ++ nl ++ nl ++ "Topic: ");
   Sub (VStr topic); Lit (nl ++ "Industry: ");
   Sub (VStr industry); Lit (nl ++ "Format: ");
   Sub (default VUndefined (VStr <$> formatInstructions !! format));
   Lit (nl ++ nl)]
  ++ brandVoiceContext ++
  [Lit (nl ++ nl ++ "Generate high-quality, engaging content that:" ++ nl
        ++ "1. Is tailored specifically for the ");
   Sub (VStr industry);
   Lit (" industry" ++ nl
        ++ "2. Uses relevant examples and terminology from that industry" ++ nl
        ++ "3. Provides real value to the target audience" ++ nl
        ++ "4. ");
   Lit (if truthy brandVoice
        then "Matches the brand voice guidelines above exactly"
        else "Uses a professional, engaging tone");
   Lit (nl ++ nl);
   Lit (if String.eqb format "blog" then "Include a compelling title at the beginning." else "");
   Lit nl;
   Lit (if String.eqb format "linkedin" then "Number each post (1, 2, 3) and clearly separate them." else "");
   Lit nl;
   Lit (if String.eqb format "twitter" then "Number each tweet (1, 2, 3, 4, 5) and clearly separate them." else "");
   Lit nl;
   Lit (if String.eqb format "google-ads" then "Format as: Headline 1 / Description 1, then Headline 2 / Description 2, etc." else "");
   Lit nl;
   Lit (if String.eqb format "instagram" then "Number each caption (1, 2, 3) and include relevant hashtags. Make them visually descriptive." else "");
   Lit nl;
   Lit (if String.eqb format "facebook" then "Number each post (1, 2, 3) and clearly separate them. Include engagement hooks." else "");
   Lit nl;
   Lit (if String.eqb format "email" then "Format as: Subject Line / Preheader / Body Content" else "");
   Lit nl;
   Lit (if String.eqb format "newsletter" then "Include: Subject Line / Introduction / Main Sections / Call-to-Action" else "");
   Lit (nl ++ nl ++ "Generate the content now:")])%list.

Definition generationParams (topic industry format : string)
    (brandVoice : value) (brandVoiceContext : template) : MessageCreateParams :=
  {| model := modelOf env;
     max_tokens := 4000;
     messages := PromptText (prompt topic industry format brandVoice brandVoiceContext) |}.

(** What becomes of the gateway's reply to the call for one format. The
    whole of it runs inside the [try]: a failed call, a reply without first
    block and a term without [toLowerCase] end in the error text carrying
    the message; a first block that is not text ends in the last [return]. *)
Definition contentOf (format : string) (voice : Voice) (r : Reply)
  : GeneratedContent :=
  match r with
  | Rejected e => errorContent format (errorMessage e)
  | Resolved [] =>
      errorContent format "Cannot read properties of undefined (reading 'type')"
  | Resolved (TextBlock text :: _) =>
      match consistencyScoreOf voice text with
      | inr score =>
          {| format := format; content := text; consistencyScore := score |}
      | inl e => errorContent format (errorMessage e)
      end
  | Resolved (OtherBlock :: _) =>
      {| format := format;
         content := "Error generating " ++ format ++ " content. Please try again.";
         consistencyScore := None |}
  end.

(** [generateContentForFormat(topic, industry, format, brandVoice)], as the
    [n]-th gateway call: the value the promise settles with ([inl] for a
    rejection) and the calls made. An absent [brandVoice] is [VUndefined]. *)
Definition generateContentForFormat (n : nat) (topic industry format : string)
    (brandVoice : value)
  : (Thrown + GeneratedContent) * list MessageCreateParams :=
  match voiceOf brandVoice with
  | inl e => (inl e, [])
  | inr voice =>
      let params :=
        generationParams topic industry format brandVoice
          (brandVoiceContext brandVoice voice) in
      (inr (contentOf format voice (create n params)), [params])
  end.

(** *** The request handler *)

(** [formats.map(format => generateContentForFormat(...))]: each call runs
    up to its [await], so the gateway calls are issued in the order of
    [formats]; the outcomes are those the promises settle with. *)
Fixpoint generationPromises (n : nat) (topic industry : string)
    (formats : list string) (brandVoice : value)
  : list (Thrown + GeneratedContent) * list MessageCreateParams :=
  match formats with
  | [] => ([], [])
  | format :: rest =>
      let '(outcome, calls) :=
        generateContentForFormat n topic industry format brandVoice in
      let '(outcomes, calls') :=
        generationPromises (n + length calls) topic industry rest brandVoice in
      (outcome :: outcomes, (calls ++ calls')%list)
  end.

(** The profile used for generation: analysed from the examples when there
    are some, else the one of the request when it has one. *)
Definition brandVoiceFor (body : RequestBody)
  : value * list MessageCreateParams :=
  match examplesToUse (brandVoiceExamples body) with
  | (_ :: _) as examples => analyzeBrandVoice 0 (VArr examples)
  | [] => (if truthy (brandVoice body) then brandVoice body else VUndefined, [])
  end.

(** [POST(request)]: the response ([None] when the handler never answers,
    a gateway call staying pending) and the gateway calls made. [request] is
    the outcome of [request.json()]; [schedule] lists the generation
    promises in the order in which they settle. *)
Definition POST (schedule : list nat) (request : Thrown + RequestBody)
  : option Response * list MessageCreateParams :=
  if negb (isSet (ANTHROPIC_API_KEY env)) then
    (Some {| status := 500;
             body := ErrorBody "ANTHROPIC_API_KEY is not configured. Please set it in your .env.local file." |},
     [])
  else
    match request with
    | inl e => (Some (internalError e), [])
    | inr body =>
        let examples := examplesToUse (brandVoiceExamples body) in
        if (0 <? length examples)%nat && isEmpty (formats body) then
          let '(brandVoice, calls) := analyzeBrandVoice 0 (VArr examples) in
          (Some {| status := 200; body := ResultBody [] brandVoice |}, calls)
        else if negb (isSet (topic body)) || negb (isSet (industry body))
                || isEmpty (formats body) then
          (Some {| status := 400;
                   body := ErrorBody "Missing required fields: topic, industry, and at least one format are required" |},
           [])
        else
          let topic := default "" (topic body) in
          let industry := default "" (industry body) in
          let formats := default [] (formats body) in
          let '(brandVoice, calls) := brandVoiceFor body in
          let '(outcomes, calls') :=
            generationPromises (length calls) topic industry formats brandVoice in
          (match Promise_all outcomes schedule with
           | None => None
           | Some (inl e) => Some (internalError e)
           | Some (inr results) =>
               Some {| status := 200; body := ResultBody results brandVoice |}
           end,
           (calls ++ calls')%list)
    end.

End Route.

(** ** The client components

    The handlers of the studio's forms that do not touch the DOM. State set
    by a handler is returned; [fetch] is a function from the parsed body of
    the request to the response, [None] while it is pending. A [fetch] that
    rejects (no network) and a response whose body is not JSON are not
    modelled. *)

(** *** The results dashboard *)

(** [getConsistencyColor(score)]; [!score] holds for an absent score and for
    the score 0. *)
Definition getConsistencyColor (score : option Q) : string :=
  match score with
  | None => "text-gray-500"
  | Some s =>
      if Qeq_bool s 0 then "text-gray-500"
      else if Qle_bool 85 s then "text-green-600"
      else if Qle_bool 70 s then "text-yellow-600"
      else "text-red-600"
  end.

(** *** The studio form *)



(** [toggleFormat(format)] on the selected formats [prev]. *)
Definition toggleFormat (prev : list string) (format : string) : list string :=
  if existsb (String.eqb format) prev
  then List.filter (λ f, negb (String.eqb f format)) prev
  else (prev ++ [format])%list.

(** *** The calibration form *)

(** The type given to [handleExampleChange]. *)
Inductive ExampleType : Type := TextType | ImageType.

Definition typeName (type : ExampleType) : string :=
  match type with TextType => "text" | ImageType => "image" end.

(** An example held by the form, [{ type, content }]. *)
Record UploadExample : Type := { exType : ExampleType; exContent : string }.

(** The rest of [s] after the prefix [p]. *)
Fixpoint stripPrefix (p s : string) : option string :=
  match p with
  | "" => Some s
  | String a p' =>
      match s with
      | String b s' => if Ascii.eqb a b then stripPrefix p' s' else None
      | "" => None
      end
  end.

(** [content.match(/data:([^;]+)/)?.[1]]: at the first place where [data:]
    is followed by a character other than [;], the run of such
    characters. *)
Fixpoint dataUrlType (s : string) : option string :=
  match
    run ← JS.beforeChar ";" <$> stripPrefix "data:" s;
    if String.eqb run "" then None else Some run
  with
  | Some run => Some run
  | None =>
      match s with
      | "" => None
      | String _ s' => dataUrlType s'
      end
  end.

(** [ex && ex.content && ex.content.trim().length > 0] *)
Definition isValid (ex : option UploadExample) : bool :=
  match ex with
  | Some e =>
      negb (String.eqb (exContent e) "")
      && (0 <? String.length (JS.trim (exContent e)))%nat
  | None => false
  end.

Definition validExamples (examples : list (option UploadExample))
  : list UploadExample :=
  omap id (List.filter isValid examples).

(** An element of [formattedExamples], as the request carries it: the
    [mimeType] of a text example is undefined and left out of the JSON. *)
Definition formatExample (ex : UploadExample) : value :=
  obj ([("type", VStr (typeName (exType ex))); ("content", VStr (exContent ex))]
       ++ match exType ex with
          | ImageType =>
              [("mimeType",
                orElse (default VUndefined (VStr <$> dataUrlType (exContent ex)))
                  (VStr "image/png"))]
          | TextType => []
          end).

(** What a handler of the forms ends in. *)
Inductive Outcome : Type :=
| Alert (message : string)
| Completed (examples : list value) (analysis : value)
| Results (contents : option (list GeneratedContent)) (brandVoice : value)
| Waiting.

(** The body [handleAnalyze] sends. *)
Definition analysisRequest (formattedExamples : list value) : RequestBody :=
  {| topic := Some "dummy"; industry := Some "SaaS"; formats := Some [];
     brandVoice := VUndefined; brandVoiceExamples := VArr formattedExamples |}.

(** The body [handleGenerate] sends; JSON leaves an undefined field out. *)
Definition generationRequest (topic industry : string)
    (selectedFormats : list string) (brandVoiceExamples : list value)
    (brandVoice : value) : RequestBody :=
  {| topic := Some topic; industry := Some (JS.trim industry);
     formats := Some selectedFormats;
     brandVoice := orElse brandVoice VUndefined;
     brandVoiceExamples :=
       if (0 <? length brandVoiceExamples)%nat
       then VArr brandVoiceExamples else VUndefined |}.

Section Client.

(** [fetch("/api/generate", ...)] on the parsed body of the request ([None]
    while the response is pending), and the status text of a response. *)
Variable fetch : RequestBody → option Response.
Variable statusText : nat → string.

(** [response.ok] *)
Definition ok (response : Response) : bool :=
  ((200 <=? status response) && (status response <=? 299))%nat.

(** [errorData.error || `Failed to ${what}: ${response.status} ${response.statusText}`] *)
Definition failureMessage (what : string) (response : Response) : string :=
  let fallback :=
    "Failed to " ++ what ++ ": " ++ JS.natToString (status response) ++ " "
    ++ statusText (status response) in
  match body response with
  | ErrorBody error => if String.eqb error "" then fallback else error
  | ResultBody _ _ => fallback
  end.

(** [handleAnalyze()] on the examples of the form. *)
Definition handleAnalyze (examples : list (option UploadExample)) : Outcome :=
  let valid := validExamples examples in
  if (length valid <? 2)%nat then
    Alert "Please provide at least 2 examples of your brand voice."
  else
    let formattedExamples := formatExample <$> valid in
    match fetch (analysisRequest formattedExamples) with
    | None => Waiting
    | Some response =>
        let alert errorMessage :=
          if JS.includes errorMessage "ANTHROPIC_API_KEY" then
            Alert "API key not configured. Please set ANTHROPIC_API_KEY in your .env.local file."
          else
            Alert ("Failed to analyze brand voice: " ++ errorMessage
                   ++ ". Please try again.") in
        if negb (ok response) then
          alert (failureMessage "analyze brand voice" response)
        else
          match body response with
          | ResultBody _ analysis =>
              if truthy analysis then Completed formattedExamples analysis
              else alert "No brand voice analysis returned"
          | ErrorBody _ => alert "No brand voice analysis returned"
          end
    end.

(** [handleGenerate()] on the state of the form; [brandVoice] is [VNull]
    before any calibration. *)
Definition handleGenerate (topic industry : string)
    (selectedFormats : list string) (brandVoiceExamples : list value)
    (brandVoice : value) : Outcome :=
  if String.eqb (JS.trim topic) "" || String.eqb (JS.trim industry) ""
     || (length selectedFormats =? 0)%nat then
    Alert "Please enter a topic, industry, and select at least one content format."
  else
    match fetch (generationRequest topic industry selectedFormats
                   brandVoiceExamples brandVoice) with
    | None => Waiting
    | Some response =>
        if negb (ok response) then
          let errorMessage := failureMessage "generate content" response in
          if JS.includes errorMessage "ANTHROPIC_API_KEY" then
            Alert "API key not configured. Please set ANTHROPIC_API_KEY in your .env.local file. See README for setup instructions."
          else
            Alert ("Failed to generate content: " ++ errorMessage
                   ++ ". Please try again.")
        else
          match body response with
          | ResultBody contents analysis =>
              Results (Some contents) (if truthy analysis then analysis else brandVoice)
          | ErrorBody _ => Results None brandVoice
          end
    end.

End Client.

(** The route as the forms reach it. *)
Definition server (env : Env) (create : Gateway) (schedule : list nat)
    (body : RequestBody) : option Response :=
  fst (POST env create schedule (inr body)).

(** ** Notions used in the statements *)

(** The same letter up to case. *)
Definition sameLetter (a b : ascii) : Prop :=
  a = b
  ∨ (JS.isUpper a = true ∧ b = JS.lowerChar a)
  ∨ (JS.isUpper b = true ∧ a = JS.lowerChar b).

(** Equality of texts up to the case of their letters. *)
Inductive eqIgnoreCase : string -> string -> Prop :=
| eic_nil : eqIgnoreCase "" ""
| eic_cons a b s t :
    sameLetter a b -> eqIgnoreCase s t ->
    eqIgnoreCase (String a s) (String b t).

(** [term] occurs in [text] as a substring, case-insensitively. *)
Definition occursIgnoringCase (term text : string) : Prop :=
  ∃ pre mid post, text = pre ++ mid ++ post ∧ eqIgnoreCase mid term.

(** [matchedCount text terms k]: [k] entries of [terms] occur in [text]
    case-insensitively. *)
Inductive matchedCount (text : string) : list string -> nat -> Prop :=
| mc_nil : matchedCount text [] 0
| mc_hit term terms k :
    occursIgnoringCase term text -> matchedCount text terms k ->
    matchedCount text (term :: terms) (S k)
| mc_miss term terms k :
    ¬ occursIgnoringCase term text -> matchedCount text terms k ->
    matchedCount text (term :: terms) k.


(** Every character of [s] satisfies [p]. *)
Fixpoint allChars (p : ascii -> bool) (s : string) : bool :=
  match s with
  | "" => true
  | String c s' => p c && allChars p s'
  end.

(** [c] does not occur in [s]. *)
Definition noChar (c : ascii) (s : string) : Prop :=
  allChars (fun a => negb (Ascii.eqb a c)) s = true.

(** The reply to the gateway call made for the [i]-th requested format,
    the calls for the formats following the [n0] calls of the analysis. *)
Definition replyFor (env : Env) (create : Gateway) (n0 : nat)
    (topic industry : string) (brandVoice : value) (voice : Voice)
    (i : nat) (format : string) : Reply :=
  create (n0 + i)%nat
    (generationParams env topic industry format brandVoice
       (brandVoiceContext brandVoice voice)).


(** [t] occurs in [s] as a substring. *)
Definition occursIn (t s : string) : Prop := ∃ pre post, s = pre ++ t ++ post.

(** The four fields of a profile are present. *)
Definition allFieldsPresent (v : value) : Prop :=
  get v "tone" ≠ VUndefined ∧ get v "style" ≠ VUndefined
  ∧ get v "terminology" ≠ VUndefined ∧ get v "structure" ≠ VUndefined.

(** A pattern every match of which goes through its capturing group. *)
Fixpoint captures (r : JS.regex) : bool :=
  match r with
  | JS.Eps | JS.Chr _ | JS.Star _ | JS.Opt _ => false
  | JS.Seq r1 r2 => captures r1 || captures r2
  | JS.Group _ => true
  end.

(** ** Example data *)

Definition envExample : Env :=
  {| ANTHROPIC_API_KEY := Some "sk-ant-example"; CLAUDE_MODEL := None |}.

Definition greekProfile : BrandVoiceAnalysis :=
  {| tone := "bold"; style := "short sentences";
     terminology := ["alpha"; "beta"; "gamma"; "delta"];
     structure := "headline first" |}.

(** A gateway that answers every call with one text block. *)
Definition replyWith (text : string) : Gateway :=
  fun _ _ => Resolved [TextBlock text].

Definition greekText : string := "Alpha release notes: the GAMMA build ships today.".

(** A request for two formats with a supplied profile. *)
Definition twoFormats : RequestBody :=
  {| topic := Some "Quarterly launch"; industry := Some "FinTech";
     formats := Some ["email"; "blog"];
     brandVoice := profileValue greekProfile;
     brandVoiceExamples := VUndefined |}.


(** A calibration request: two examples in the legacy shape, no formats,
    no topic and no industry. *)
Definition calibration : RequestBody :=
  {| topic := None; industry := None; formats := Some [];
     brandVoice := VUndefined;
     brandVoiceExamples := VArr [VStr "We ship fast."; VStr "No fluff."] |}.

Definition directProfile : BrandVoiceAnalysis :=
  {| tone := "direct"; style := "short"; terminology := ["ship"];
     structure := "flat" |}.

Definition directReply : string :=
  JS.q "{'tone':'direct','style':'short','terminology':['ship'],'structure':'flat'}".

(** A request for one format with an empty topic. *)
Definition emptyTopic : RequestBody :=
  {| topic := Some ""; industry := Some "FinTech"; formats := Some ["blog"];
     brandVoice := VUndefined; brandVoiceExamples := VUndefined |}.

(** A reply holding an object with one of the four fields. *)
Definition partialReply : string := JS.q "{'tone':'casual'}".







Definition oneExample : value := VArr [VStr "We ship fast."].

(** An example whose content is empty, as the handler builds it from the
    legacy list with the one empty string. *)
Definition emptyExample : value := textExample (VStr "").

(** A request with two legacy examples and one format. *)
Definition calibrateAndWrite : RequestBody :=
  {| topic := Some "Quarterly launch"; industry := Some "FinTech";
     formats := Some ["blog"];
     brandVoice := VUndefined;
     brandVoiceExamples := VArr [VStr "We ship fast."; VStr "No fluff."] |}.

(** A profile whose terminology holds a number. *)
Definition yearVoice : value :=
  obj [("tone", VStr "bold"); ("style", VStr "short");
       ("terminology", VArr [VStr "alpha"; VNum 2024]);
       ("structure", VStr "flat")].

(** * Properties *)

(** ** Strings *)

#[local] Arguments String.append : simpl nomatch.

Lemma append_assoc (a b c : string) : (a ++ b) ++ c = a ++ (b ++ c).
Proof. induction a as [|x a IH]; simpl; congruence. Qed.

Lemma append_nil_r (a : string) : a ++ "" = a.
Proof. induction a as [|x a IH]; simpl; congruence. Qed.

Lemma length_append (a b : string) :
  String.length (a ++ b) = (String.length a + String.length b)%nat.
Proof. induction a as [|x a IH]; simpl; congruence. Qed.

Lemma take_append (a b : string) : JS.take (String.length a) (a ++ b) = a.
Proof.
  unfold JS.take. induction a as [|x a IH]; simpl.
  - destruct b; reflexivity.
  - congruence.
Qed.

Lemma take_rest (a b : string) :
  JS.take (String.length (a ++ b) - String.length b) (a ++ b) = a.
Proof.
  rewrite length_append.
  replace (String.length a + String.length b - String.length b)%nat
    with (String.length a) by lia.
  apply take_append.
Qed.

Lemma take_prefix (n : nat) (s : string) : ∃ r, s = JS.take n s ++ r.
Proof.
  unfold JS.take. revert n. induction s as [|x s IH]; intros [|n]; simpl.
  - now exists "".
  - now exists "".
  - now exists (String x s).
  - destruct (IH n) as [r Hr]. exists r. now rewrite <- Hr.
Qed.

Lemma startsWith_spec (s p : string) :
  JS.startsWith s p = true ↔ ∃ r, s = p ++ r.
Proof.
  revert s. induction p as [|a p IH]; intros s; simpl.
  - split; [intros _; now exists s | reflexivity].
  - destruct s as [|b s].
    + split; [discriminate | intros [r Hr]; discriminate].
    + destruct (Ascii.eqb_spec a b) as [->|Hne].
      * rewrite IH. split; intros [r Hr]; exists r; [now rewrite Hr | now injection Hr].
      * split; [discriminate | intros [r Hr]; injection Hr; congruence].
Qed.

Lemma includes_spec (s t : string) :
  JS.includes s t = true ↔ ∃ pre post, s = pre ++ t ++ post.
Proof.
  induction s as [|c s IH]; simpl.
  - rewrite orb_false_r, startsWith_spec. split.
    + intros [r Hr]. now exists "", r.
    + intros (pre & post & H). destruct pre; [now exists post | discriminate].
  - rewrite orb_true_iff, startsWith_spec, IH. split.
    + intros [[r Hr] | (pre & post & H)].
      * now exists "", r.
      * exists (String c pre), post. now rewrite H.
    + intros (pre & post & H). destruct pre as [|x pre]; simpl in H.
      * left. now exists post.
      * right. injection H as _ H. now exists pre, post.
Qed.

(** ** Case mapping *)

Lemma toLowerCase_append (a b : string) :
  JS.toLowerCase (a ++ b) = JS.toLowerCase a ++ JS.toLowerCase b.
Proof. induction a as [|x a IH]; simpl; congruence. Qed.

Lemma toLowerCase_split (s a b : string) :
  JS.toLowerCase s = a ++ b →
  ∃ s1 s2, s = s1 ++ s2 ∧ JS.toLowerCase s1 = a ∧ JS.toLowerCase s2 = b.
Proof.
  revert s. induction a as [|x a IH]; intros s H; simpl in H.
  - now exists "", s.
  - destruct s as [|c s]; [discriminate|]. simpl in H. injection H as Hc H.
    destruct (IH _ H) as (s1 & s2 & -> & H1 & H2).
    exists (String c s1), s2. simpl. now rewrite Hc, H1.
Qed.

Lemma isUpper_range (c : ascii) :
  JS.isUpper c = true ↔ (65 ≤ JS.code c ≤ 90)%nat.
Proof.
  unfold JS.isUpper. rewrite andb_true_iff, !Nat.leb_le. reflexivity.
Qed.

Lemma code_lowerChar (c : ascii) :
  JS.isUpper c = true → JS.code (JS.lowerChar c) = (JS.code c + 32)%nat.
Proof.
  intros H. unfold JS.lowerChar. rewrite H. unfold JS.code at 1.
  apply nat_ascii_embedding. apply isUpper_range in H. lia.
Qed.

Lemma code_inj (a b : ascii) : JS.code a = JS.code b → a = b.
Proof.
  unfold JS.code. intros H.
  rewrite <- (ascii_nat_embedding a), <- (ascii_nat_embedding b). now rewrite H.
Qed.

Lemma lowerChar_not_upper (c : ascii) : JS.isUpper (JS.lowerChar c) = false.
Proof.
  destruct (JS.isUpper c) eqn:H.
  - apply not_true_is_false. intros H'. apply isUpper_range in H'.
    rewrite code_lowerChar in H' by exact H. apply isUpper_range in H. lia.
  - unfold JS.lowerChar. now rewrite H.
Qed.

Lemma sameLetter_lowerChar (a b : ascii) :
  sameLetter a b ↔ JS.lowerChar a = JS.lowerChar b.
Proof.
  split.
  - intros [->|[[Ha ->]|[Hb ->]]]; [reflexivity | |].
    + unfold JS.lowerChar at 2. now rewrite lowerChar_not_upper.
    + unfold JS.lowerChar at 1. now rewrite lowerChar_not_upper.
  - intros H. destruct (JS.isUpper a) eqn:Ha, (JS.isUpper b) eqn:Hb.
    + left. apply code_inj.
      apply (f_equal JS.code) in H. rewrite !code_lowerChar in H by assumption. lia.
    + right; left. split; [exact Ha|]. rewrite H. unfold JS.lowerChar. now rewrite Hb.
    + right; right. split; [exact Hb|]. rewrite <- H. unfold JS.lowerChar. now rewrite Ha.
    + left. unfold JS.lowerChar in H. now rewrite Ha, Hb in H.
Qed.

Lemma eqIgnoreCase_toLowerCase (s t : string) :
  eqIgnoreCase s t ↔ JS.toLowerCase s = JS.toLowerCase t.
Proof.
  split.
  - induction 1 as [|a b s t Hab _ IH]; simpl; [reflexivity|].
    apply sameLetter_lowerChar in Hab. now rewrite Hab, IH.
  - revert t. induction s as [|a s IH]; intros [|b t] H; simpl in H;
      try discriminate.
    + constructor.
    + injection H as Hab H. constructor; [now apply sameLetter_lowerChar | now apply IH].
Qed.

(** The test of the source decides case-insensitive occurrence. *)
Lemma includes_toLowerCase (text term : string) :
  JS.includes (JS.toLowerCase text) (JS.toLowerCase term) = true
  ↔ occursIgnoringCase term text.
Proof.
  rewrite includes_spec. split.
  - intros (pre & post & H).
    apply toLowerCase_split in H as (s1 & s23 & -> & H1 & H).
    apply toLowerCase_split in H as (s2 & s3 & -> & H2 & H3).
    exists s1, s2, s3. split; [reflexivity | now apply eqIgnoreCase_toLowerCase].
  - intros (pre & mid & post & -> & H). apply eqIgnoreCase_toLowerCase in H.
    exists (JS.toLowerCase pre), (JS.toLowerCase post).
    now rewrite !toLowerCase_append, H.
Qed.

(** ** The consistency score *)

Lemma matchingTerms_strings (text : string) (terms : list string) :
  ∃ k, matchingTerms (JS.toLowerCase text) (VStr <$> terms) = inr k
       ∧ matchedCount text terms k.
Proof.
  induction terms as [|term terms (k & IH & Hk)].
  - exists 0%nat. split; [reflexivity | constructor].
  - rewrite fmap_cons. simpl. rewrite IH.
    destruct (JS.includes (JS.toLowerCase text) (JS.toLowerCase term)) eqn:Hin.
    + exists (S k). split; [reflexivity|].
      apply mc_hit; [now apply includes_toLowerCase | exact Hk].
    + exists k. split; [reflexivity|].
      apply mc_miss; [|exact Hk].
      intros H. apply includes_toLowerCase in H. congruence.
Qed.

Lemma matchedCount_unique (text : string) (terms : list string) (j k : nat) :
  matchedCount text terms j → matchedCount text terms k → j = k.
Proof.
  intros Hj. revert k.
  induction Hj as [|term terms j Hin _ IH|term terms j Hout _ IH];
    intros k Hk; inversion Hk; subst; try reflexivity; try contradiction;
    auto using f_equal.
Qed.


Lemma scoreFormula_bounds (k total : nat) :
  (70 <= scoreFormula k total <= 95)%Q.
Proof.
  unfold scoreFormula. split.
  - apply Q.min_glb; [discriminate|].
    rewrite <- (Qplus_0_r 70) at 1. apply Qplus_le_r.
    apply Qmult_le_0_compat; [|discriminate].
    apply Qmult_le_0_compat.
    + change 0%Q with (inject_Z 0). rewrite <- Zle_Qle. lia.
    + apply Qinv_le_0_compat.
      change 0%Q with (inject_Z 0). rewrite <- Zle_Qle. lia.
  - apply Q.le_min_l.
Qed.


(** The call made for one format, when the prompt could be built. *)
Lemma generateContentForFormat_call env create n topic industry format
    brandVoice voice :
  voiceOf brandVoice = inr voice →
  generateContentForFormat env create n topic industry format brandVoice
  = (inr (contentOf format voice
            (create n (generationParams env topic industry format brandVoice
                         (brandVoiceContext brandVoice voice)))),
     [generationParams env topic industry format brandVoice
        (brandVoiceContext brandVoice voice)]).
Proof. intros H. unfold generateContentForFormat. now rewrite H. Qed.



(** C10. A consistency score that is present lies between 70 and 95. *)
Theorem consistencyScore_range env create n topic industry format brandVoice
    r score :
  fst (generateContentForFormat env create n topic industry format brandVoice)
  = inr r →
  consistencyScore r = Some score →
  (70 <= score <= 95)%Q.
Proof.
  unfold generateContentForFormat.
  destruct (voiceOf brandVoice) as [e|voice]; [discriminate|].
  simpl. intros [= <-]. unfold contentOf, errorContent.
  destruct (create _ _) as [[|[text|] blocks]|e]; simpl; try discriminate.
  destruct voice as [|[|term terms]]; unfold consistencyScoreOf.
  - simpl. discriminate.
  - simpl. intros [= <-]. split; discriminate.
  - destruct (matchingTerms _ (term :: terms)) as [e|k]; simpl; [discriminate|].
    intros [= <-]. apply scoreFormula_bounds.
Qed.

Lemma consistencyScore_range_greek :
  ∃ r score,
    fst (generateContentForFormat envExample (replyWith greekText) 0
           "launch" "SaaS" "blog" (profileValue greekProfile)) = inr r
    ∧ consistencyScore r = Some score
    ∧ (70 <= score <= 95)%Q.
Proof.
  eexists _, _. split; [reflexivity|]. split; [reflexivity|].
  eapply (consistencyScore_range envExample (replyWith greekText) 0%nat
            "launch" "SaaS" "blog" (profileValue greekProfile));
    reflexivity.
Defined.

(** ** Promise.all *)

Lemma slots_filled {A} (outcomes : list (Thrown + A)) slots values :
  length slots = length outcomes →
  (∀ i v, slots !! i = Some (Some v) → outcomes !! i = Some (inr v)) →
  mapM id slots = Some values →
  outcomes = inr <$> values.
Proof.
  intros Hlen Hinv HM. apply mapM_Some_1 in HM.
  pose proof (Forall2_length _ _ _ HM) as Hlen'.
  apply list_eq; intros i. rewrite list_lookup_fmap.
  destruct (slots !! i) as [x|] eqn:Hx.
  - destruct (Forall2_lookup_l _ _ _ i x HM Hx) as (y & Hy & Hid).
    simpl in Hid. subst x. rewrite Hy. simpl. now apply Hinv.
  - apply lookup_ge_None in Hx.
    rewrite (lookup_ge_None_2 outcomes), (lookup_ge_None_2 values) by lia.
    reflexivity.
Qed.

Lemma settle_inv {A} (outcomes : list (Thrown + A)) schedule :
  ∀ slots vs,
    length slots = length outcomes →
    (∀ i v, slots !! i = Some (Some v) → outcomes !! i = Some (inr v)) →
    settle outcomes slots schedule = Some (inr vs) →
    outcomes = inr <$> vs.
Proof.
  induction schedule as [|j rest IH]; intros slots vs Hlen Hinv; simpl;
    destruct (mapM id slots) as [values|] eqn:HM.
  - intros [= <-]. eapply slots_filled; eassumption.
  - discriminate.
  - intros [= <-]. eapply slots_filled; eassumption.
  - destruct (outcomes !! j) as [[e|v]|] eqn:Hj; [discriminate| |].
    + apply IH.
      * now rewrite length_insert.
      * intros i v' Hi. apply list_lookup_insert_Some in Hi
          as [(-> & [= ->] & _)|[_ Hi]]; [exact Hj | now apply Hinv].
    + now apply IH.
Qed.

Lemma settle_complete {A} (vs : list A) schedule :
  ∀ slots,
    length slots = length vs →
    (∀ i, (i < length vs)%nat →
          slots !! i = Some (vs !! i) ∨ (slots !! i = Some None ∧ i ∈ schedule)) →
    ∃ vs', settle (inr <$> vs) slots schedule = Some (inr vs').
Proof.
  induction schedule as [|j rest IH]; intros slots Hlen Hinv; simpl;
    destruct (mapM id slots) as [values|] eqn:HM; eauto.
  - apply mapM_None_1, Exists_exists in HM as (x & Hx & Hid). simpl in Hid. subst x.
    apply list_elem_of_lookup_1 in Hx as [i Hi].
    pose proof (lookup_lt_Some _ _ _ Hi) as Hlt. rewrite Hlen in Hlt.
    destruct (Hinv i Hlt) as [H|[_ H]].
    + rewrite Hi in H. destruct (lookup_lt_is_Some_2 vs i Hlt) as [v Hv].
      rewrite Hv in H. discriminate.
    + now apply elem_of_nil in H.
  - rewrite list_lookup_fmap. destruct (vs !! j) as [v|] eqn:Hj; simpl.
    + apply IH; [now rewrite length_insert|].
      intros i Hlt. destruct (decide (i = j)) as [->|Hne].
      * left. rewrite list_lookup_insert_eq, Hj; [reflexivity|].
        rewrite Hlen. lia.
      * rewrite list_lookup_insert_ne by congruence.
        destruct (Hinv i Hlt) as [H|[H Hin]]; [now left|].
        right. split; [exact H|]. apply elem_of_cons in Hin as [?|?]; congruence.
    + apply IH; [exact Hlen|].
      intros i Hlt. destruct (Hinv i Hlt) as [H|[H Hin]]; [now left|].
      right. split; [exact H|]. apply elem_of_cons in Hin as [->|?]; [|done].
      apply lookup_ge_None in Hj. lia.
Qed.

(** The result of [Promise.all] holds the values in the order of the input
    promises, whatever the order in which they settle. *)
Lemma Promise_all_inv {A} (outcomes : list (Thrown + A)) schedule vs :
  Promise_all outcomes schedule = Some (inr vs) → outcomes = inr <$> vs.
Proof.
  apply settle_inv; [apply length_replicate|].
  intros i v Hi. apply lookup_replicate in Hi as [Hi _]. discriminate.
Qed.

Lemma Promise_all_fulfilled {A} (vs : list A) schedule :
  (∀ i, (i < length vs)%nat → i ∈ schedule) →
  Promise_all (inr <$> vs) schedule = Some (inr vs).
Proof.
  intros Hall.
  destruct (settle_complete vs schedule (replicate (length vs) None))
    as [vs' Hvs'].
  - apply length_replicate.
  - intros i Hlt. right. split; [now apply lookup_replicate_2 | now apply Hall].
  - unfold Promise_all. rewrite length_fmap, Hvs'.
    pose proof Hvs' as Heq.
    rewrite <- (length_fmap (@inr Thrown A) vs) in Heq.
    apply (Promise_all_inv (inr <$> vs)) in Heq.
    apply (inj (fmap inr)) in Heq. now subst.
Qed.

(** ** The fan-out *)

Lemma contentOf_format (f : string) voice r : format (contentOf f voice r) = f.
Proof.
  unfold contentOf, errorContent.
  destruct r as [[|[text|] blocks]|e]; try reflexivity.
  destruct (consistencyScoreOf voice text); reflexivity.
Qed.

Lemma generationPromises_ok env create topic industry fs brandVoice voice :
  voiceOf brandVoice = inr voice →
  ∀ n,
    generationPromises env create n topic industry fs brandVoice
    = (inr <$> imap (λ i f, contentOf f voice
                       (replyFor env create n topic industry brandVoice voice i f)) fs,
       (λ f, generationParams env topic industry f brandVoice
               (brandVoiceContext brandVoice voice)) <$> fs).
Proof.
  intros Hv. induction fs as [|f fs IH]; intros n; [reflexivity|].
  cbn [generationPromises].
  rewrite (generateContentForFormat_call _ _ _ _ _ _ _ _ Hv), IH.
  cbn [length]. rewrite imap_cons, !fmap_cons. unfold replyFor at 2.
  rewrite Nat.add_0_r. do 3 f_equal.
  apply imap_ext. intros i x _. unfold replyFor. simpl.
  now replace (n + 1 + i)%nat with (n + S i)%nat by lia.
Qed.

Lemma generationPromises_formats env create topic industry fs brandVoice :
  ∀ n,
    Forall2 (λ o f, ∀ c, o = inr c → format c = f)
      (fst (generationPromises env create n topic industry fs brandVoice)) fs.
Proof.
  induction fs as [|f fs IH]; intros n; [constructor|].
  cbn [generationPromises].
  destruct (generateContentForFormat _ _ _ _ _ _ _) as [o calls] eqn:Ho.
  specialize (IH (n + length calls)%nat).
  destruct (generationPromises _ _ _ _ _ _ _) as [os calls'].
  simpl in *. constructor; [|exact IH].
  intros c ->. unfold generateContentForFormat in Ho.
  destruct (voiceOf brandVoice); [discriminate|].
  injection Ho as <- _. apply contentOf_format.
Qed.

Lemma results_formats (outcomes : list (Thrown + GeneratedContent)) results fs :
  outcomes = inr <$> results →
  Forall2 (λ o f, ∀ c, o = inr c → format c = f) outcomes fs →
  format <$> results = fs.
Proof.
  intros -> H. revert fs H.
  induction results as [|c results IH]; intros fs H; inversion H; subst.
  - reflexivity.
  - rewrite fmap_cons. f_equal; [now auto | now apply IH].
Qed.

(** The handler on a request that passes the checks. *)
Lemma POST_generate env create schedule body fs :
  isSet (ANTHROPIC_API_KEY env) = true →
  isSet (topic body) = true →
  isSet (industry body) = true →
  formats body = Some fs →
  fs ≠ [] →
  POST env create schedule (inr body)
  = (match Promise_all
             (fst (generationPromises env create
                     (length (snd (brandVoiceFor env create body)))
                     (default "" (topic body)) (default "" (industry body)) fs
                     (fst (brandVoiceFor env create body)))) schedule with
     | None => None
     | Some (inl e) => Some (internalError e)
     | Some (inr results) =>
         Some {| status := 200;
                 body := ResultBody results (fst (brandVoiceFor env create body)) |}
     end,
     (snd (brandVoiceFor env create body)
      ++ snd (generationPromises env create
                (length (snd (brandVoiceFor env create body)))
                (default "" (topic body)) (default "" (industry body)) fs
                (fst (brandVoiceFor env create body))))%list).
Proof.
  intros Hkey Ht Hi Hf Hne. unfold POST. rewrite Hkey, Ht, Hi, Hf.
  destruct fs as [|f fs]; [contradiction|].
  cbn [negb isEmpty orb andb default]. rewrite andb_false_r.
  destruct (brandVoiceFor env create body) as [bv calls].
  destruct (generationPromises _ _ _ _ _ _ _) as [outcomes calls'].
  reflexivity.
Qed.

(** C4. On a request that passes the checks, the contents of a response
    list the formats in the order of the request, whatever the order in
    which the gateway calls complete; and there is such a response whenever
    the prompts can be built and every call completes. *)
Theorem POST_contents_order env create schedule body fs :
  isSet (ANTHROPIC_API_KEY env) = true →
  isSet (topic body) = true →
  isSet (industry body) = true →
  formats body = Some fs →
  fs ≠ [] →
  (∀ contents analysis calls,
     POST env create schedule (inr body)
     = (Some {| status := 200; body := ResultBody contents analysis |}, calls) →
     format <$> contents = fs)
  ∧ (∀ voice,
       voiceOf (fst (brandVoiceFor env create body)) = inr voice →
       (∀ i, (i < length fs)%nat → i ∈ schedule) →
       ∃ contents calls,
         POST env create schedule (inr body)
         = (Some {| status := 200;
                    body := ResultBody contents
                              (fst (brandVoiceFor env create body)) |}, calls)).
Proof.
  intros Hkey Ht Hi Hf Hne.
  rewrite (POST_generate _ _ _ _ _ Hkey Ht Hi Hf Hne). split.
  - intros contents analysis calls H.
    destruct (Promise_all _ schedule) as [[e|results]|] eqn:HP;
      [discriminate| |discriminate].
    injection H as -> _ _.
    eapply results_formats;
      [exact (Promise_all_inv _ _ _ HP) | apply generationPromises_formats].
  - intros voice Hv Hall.
    rewrite (generationPromises_ok _ _ _ _ _ _ _ Hv). cbn [fst snd].
    rewrite Promise_all_fulfilled; [eauto|].
    intros i Hlt. apply Hall. now rewrite length_imap in Hlt.
Qed.

Lemma POST_contents_order_blog_first :
  ∃ contents calls,
    POST envExample (replyWith greekText) [1; 0]%nat (inr twoFormats)
    = (Some {| status := 200;
               body := ResultBody contents (profileValue greekProfile) |}, calls)
    ∧ format <$> contents = ["email"; "blog"].
Proof.
  pose proof (POST_contents_order envExample (replyWith greekText) [1; 0]%nat
                twoFormats ["email"; "blog"]
                eq_refl eq_refl eq_refl eq_refl ltac:(discriminate))
    as [Horder Hsome].
  destruct (Hsome (WithVoice (VStr <$> terminology greekProfile)) eq_refl)
    as (contents & calls & HP).
  - intros i Hlt. simpl in Hlt.
    destruct i as [|[|i]]; [set_solver | set_solver | lia].
  - exists contents, calls. split; [exact HP|].
    eapply Horder. exact HP.
Defined.




(** ** The other branches of the handler *)

(** C7. With examples and without formats the handler only analyses: it
    answers 200 with no contents and the profile just computed, whatever
    the topic and the industry. *)
Theorem POST_analyze_only env create schedule body first rest :
  isSet (ANTHROPIC_API_KEY env) = true →
  brandVoiceExamples body = VArr (first :: rest) →
  isEmpty (formats body) = true →
  POST env create schedule (inr body)
  = (Some {| status := 200;
             body := ResultBody []
                       (fst (analyzeBrandVoice env create 0
                               (VArr (examplesToUse (brandVoiceExamples body))))) |},
     snd (analyzeBrandVoice env create 0
            (VArr (examplesToUse (brandVoiceExamples body))))).
Proof.
  intros Hkey Hex Hf. unfold POST. rewrite Hkey, Hf, Hex.
  cbn [negb]. unfold examplesToUse.
  destruct (isString first); rewrite ?fmap_cons; cbn [length Nat.ltb Nat.leb andb];
    now destruct (analyzeBrandVoice _ _ _ _).
Qed.

Lemma POST_analyze_only_calibration :
  ∃ analysis calls,
    POST envExample (replyWith directReply) [] (inr calibration)
    = (Some {| status := 200; body := ResultBody [] analysis |}, calls)
    ∧ JS.parse directReply = Some analysis
    ∧ allFieldsPresent analysis.
Proof.
  eexists _, _. split; [|split].
  - exact (POST_analyze_only envExample (replyWith directReply) [] calibration
             (VStr "We ship fast.") [VStr "No fluff."] eq_refl eq_refl eq_refl).
  - vm_compute. reflexivity.
  - vm_compute. repeat split; discriminate.
Defined.

(** C8. A request that is not a calibration request and lacks a topic, an
    industry or formats is answered with status 400, given that the key is
    configured, and no gateway call is made. *)
Theorem POST_validation env create schedule body :
  examplesToUse (brandVoiceExamples body) = [] ∨ isEmpty (formats body) = false →
  isSet (topic body) = false ∨ isSet (industry body) = false
  ∨ isEmpty (formats body) = true →
  snd (POST env create schedule (inr body)) = []
  ∧ (isSet (ANTHROPIC_API_KEY env) = true →
     fst (POST env create schedule (inr body))
     = Some {| status := 400;
               body := ErrorBody "Missing required fields: topic, industry, and at least one format are required" |}).
Proof.
  intros Hmode Hmissing. unfold POST.
  destruct (isSet (ANTHROPIC_API_KEY env)); cbn [negb];
    [|split; [reflexivity | discriminate]].
  assert ((0 <? length (examplesToUse (brandVoiceExamples body)))%nat
          && isEmpty (formats body) = false) as ->.
  { destruct Hmode as [-> | ->]; [reflexivity | apply andb_false_r]. }
  assert (negb (isSet (topic body)) || negb (isSet (industry body))
          || isEmpty (formats body) = true) as ->.
  { destruct Hmissing as [-> | [-> | ->]]; cbn [negb orb];
      rewrite ?orb_true_r; reflexivity. }
  split; [reflexivity | reflexivity].
Qed.

Lemma POST_validation_emptyTopic :
  POST envExample (replyWith greekText) [0]%nat (inr emptyTopic)
  = (Some {| status := 400;
             body := ErrorBody "Missing required fields: topic, industry, and at least one format are required" |},
     []).
Proof.
  destruct (POST_validation envExample (replyWith greekText) [0]%nat emptyTopic
              (or_introl eq_refl) (or_introl eq_refl)) as [Hcalls Hresp].
  specialize (Hresp eq_refl).
  destruct (POST _ _ _ _) as [resp calls]. simpl in *. now subst.
Defined.



(** ** The regular expressions of the extraction *)

Lemma noChar_cons c a s : noChar c (String a s) ↔ a ≠ c ∧ noChar c s.
Proof.
  unfold noChar. simpl. rewrite andb_true_iff, negb_true_iff.
  now rewrite Ascii.eqb_neq.
Qed.

Lemma allChars_append p a b :
  allChars p (a ++ b) = allChars p a && allChars p b.
Proof.
  induction a as [|c a IH]; simpl; [reflexivity|].
  now rewrite IH, andb_assoc.
Qed.


Lemma exec_none c r s :
  noChar c s → JS.exec (JS.Seq (JS.Chr c) r) s = None.
Proof.
  induction s as [|a s IH]; intros H; [reflexivity|].
  apply noChar_cons in H as [Hne H].
  simpl. apply Ascii.eqb_neq in Hne. rewrite Hne. now apply IH.
Qed.

Lemma exec_here r s rest cap :
  JS.rmatch r s None (λ rest cap, Some (rest, cap)) = Some (rest, cap) →
  JS.exec r s
  = Some {| JS.m0 := JS.take (String.length s - String.length rest) s;
            JS.m1 := cap |}.
Proof. intros H. destruct s; simpl; now rewrite H. Qed.







Ltac reassociate :=
  repeat (progress (simpl; rewrite ?append_assoc)); reflexivity.







(** ** What the extraction hands to the parser *)

Lemma occursIn_trans a b c : occursIn a b → occursIn b c → occursIn a c.
Proof.
  intros (p1 & q1 & ->) (p2 & q2 & ->).
  exists (p2 ++ p1), (q1 ++ q2). now rewrite !append_assoc.
Qed.

Lemma occursIn_suffix a s : occursIn s (a ++ s).
Proof. exists a, "". now rewrite append_nil_r. Qed.

Lemma occursIn_prefix s b : occursIn s (s ++ b).
Proof. now exists "", b. Qed.

Lemma occursIn_take n s : occursIn (JS.take n s) s.
Proof. destruct (take_prefix n s) as [r Hr]. rewrite Hr at 2. apply occursIn_prefix. Qed.

Lemma trimStart_suffix s : ∃ a, s = a ++ JS.trimStart s.
Proof.
  induction s as [|c s [a IH]]; [now exists ""|].
  simpl. destruct (JS.isSpace c); [|now exists ""].
  exists (String c a). simpl. now rewrite <- IH.
Qed.

Lemma trimEnd_prefix s : ∃ b, s = JS.trimEnd s ++ b.
Proof.
  induction s as [|c s [b IH]]; [now exists ""|].
  simpl. destruct (JS.isSpace c && (JS.trimEnd s =? ""))%string.
  - now exists (String c s).
  - exists b. simpl. now rewrite <- IH.
Qed.

Lemma occursIn_trim s : occursIn (JS.trim s) s.
Proof.
  unfold JS.trim.
  destruct (trimStart_suffix s) as [a Ha].
  destruct (trimEnd_prefix (JS.trimStart s)) as [b Hb].
  exists a, b. now rewrite <- Hb.
Qed.

Lemma star_inv {A} p s (k : string → option A) x :
  JS.star p s k = Some x → ∃ a s', s = a ++ s' ∧ k s' = Some x.
Proof.
  induction s as [|c s IH]; simpl; intros H.
  - now exists "", "".
  - destruct (p c); [|now exists "", (String c s)].
    destruct (JS.star p s k) as [y|] eqn:Hs.
    + injection H as ->. destruct (IH eq_refl) as (a & s' & -> & Hk).
      now exists (String c a), s'.
    + now exists "", (String c s).
Qed.

(** A successful match hands to its continuation a suffix of the input and
    a capture that is the one it received or a substring of the input. *)
Lemma rmatch_inv {A} r :
  ∀ s cap (k : string → option string → option A) x,
    JS.rmatch r s cap k = Some x →
    ∃ a s' cap',
      s = a ++ s' ∧ k s' cap' = Some x
      ∧ (cap' = cap ∨ ∃ c, cap' = Some c ∧ occursIn c s).
Proof.
  induction r as [|c|p|r IH|r1 IH1 r2 IH2|r IH]; intros s cap k x H; simpl in H.
  - exists "", s, cap. auto.
  - destruct s as [|a s]; [discriminate|].
    destruct (Ascii.eqb a c); [|discriminate].
    exists (String a ""), s, cap. auto.
  - apply star_inv in H as (a & s' & -> & Hk). exists a, s', cap. auto.
  - destruct (JS.rmatch r s cap k) as [y|] eqn:Hr.
    + injection H as ->. now apply IH.
    + exists "", s, cap. auto.
  - apply IH1 in H as (a1 & s1 & cap1 & -> & H & Hcap1).
    apply IH2 in H as (a2 & s2 & cap2 & -> & H & Hcap2).
    exists (a1 ++ a2), s2, cap2. split; [now rewrite append_assoc|].
    split; [exact H|].
    destruct Hcap2 as [->|(c & -> & Hc)]; [exact Hcap1|].
    right. exists c. split; [reflexivity|].
    eapply occursIn_trans; [exact Hc | apply occursIn_suffix].
  - apply IH in H as (a & s' & cap' & -> & H & _).
    eexists a, s', _. split; [reflexivity|]. split; [exact H|].
    right. eexists. split; [reflexivity | apply occursIn_take].
Qed.

Lemma exec_inv r s m :
  JS.exec r s = Some m →
  occursIn (JS.m0 m) s ∧ ∀ c, JS.m1 m = Some c → occursIn c s.
Proof.
  assert (∀ t, match JS.rmatch r t None (λ rest cap, Some (rest, cap)) with
               | Some (rest, cap) =>
                   Some {| JS.m0 := JS.take (String.length t - String.length rest) t;
                           JS.m1 := cap |}
               | None => None
               end = Some m →
               occursIn (JS.m0 m) t ∧ ∀ c, JS.m1 m = Some c → occursIn c t) as Hhere.
  { intros t H.
    destruct (JS.rmatch r t None _) as [[rest cap]|] eqn:Hr; [|discriminate].
    injection H as <-. simpl. split; [apply occursIn_take|].
    intros c ->.
    apply rmatch_inv in Hr as (a & s' & cap' & _ & Hk & Hcap).
    injection Hk as _ ->.
    destruct Hcap as [H|(c' & H & Hc)]; [discriminate|].
    now injection H as ->. }
  induction s as [|a s IH]; simpl; intros H.
  - apply Hhere. destruct (JS.rmatch r "" None _) as [[rest cap]|]; [exact H|discriminate].
  - destruct (JS.rmatch r (String a s) None _) as [[rest cap]|] eqn:Hr.
    + apply Hhere. now rewrite Hr.
    + destruct (IH H) as [H0 H1]. split.
      * eapply occursIn_trans; [exact H0 | apply (occursIn_suffix (String a ""))].
      * intros c Hc. eapply occursIn_trans;
          [exact (H1 c Hc) | apply (occursIn_suffix (String a ""))].
Qed.

Lemma extractJSON_occursIn reply t :
  extractJSON reply = Some t → occursIn t reply.
Proof.
  unfold extractJSON. intros H.
  assert (∃ text, occursIn text reply
                  ∧ match JS.exec objectRegex text with
                    | Some m => Some (JS.m0 m)
                    | None => Some text
                    end = Some t) as (text & Htext & Ht).
  { destruct (JS.exec fenceRegex (JS.trim reply)) as [m|] eqn:Hm; simpl in H.
    - destruct (JS.m1 m) as [c|] eqn:Hc; [|discriminate]. simpl in H.
      exists c. split; [|exact H].
      eapply occursIn_trans; [|apply occursIn_trim].
      exact (proj2 (exec_inv _ _ _ Hm) c Hc).
    - exists (JS.trim reply). split; [apply occursIn_trim | exact H]. }
  destruct (JS.exec objectRegex text) as [m|] eqn:Hm; injection Ht as <-;
    [|exact Htext].
  eapply occursIn_trans; [|exact Htext]. exact (proj1 (exec_inv _ _ _ Hm)).
Qed.



(** ** Brand-voice analysis *)

Lemma analyzeBrandVoice_reply env create n first rest reply blocks :
  create n (analysisParams env (processedExamples (first :: rest)))
  = Resolved (TextBlock reply :: blocks) →
  fst (analyzeBrandVoice env create n (VArr (first :: rest)))
  = match extractJSON reply ≫= JS.parse with
    | Some analysis => analysis
    | None => defaultProfile
    end.
Proof. intros H. simpl. now rewrite H. Qed.




(** C3, as amended. The default profile has its four fields, and what the
    analysis returns is that profile as a whole (on a failed call, on a
    reply whose first block is not text, and when extraction or parsing
    fails) or the parsed reply as a whole, whose fields are not checked. *)
Theorem analyzeBrandVoice_default_or_parsed env create n first rest :
  allFieldsPresent defaultProfile
  ∧ (∀ e,
       create n (analysisParams env (processedExamples (first :: rest)))
       = Rejected e →
       fst (analyzeBrandVoice env create n (VArr (first :: rest)))
       = defaultProfile)
  ∧ (∀ blocks,
       create n (analysisParams env (processedExamples (first :: rest)))
       = Resolved blocks →
       (∀ reply more, blocks ≠ TextBlock reply :: more) →
       fst (analyzeBrandVoice env create n (VArr (first :: rest)))
       = defaultProfile)
  ∧ (∀ reply more,
       create n (analysisParams env (processedExamples (first :: rest)))
       = Resolved (TextBlock reply :: more) →
       extractJSON reply ≫= JS.parse = None →
       fst (analyzeBrandVoice env create n (VArr (first :: rest)))
       = defaultProfile)
  ∧ (∀ reply more analysis,
       create n (analysisParams env (processedExamples (first :: rest)))
       = Resolved (TextBlock reply :: more) →
       extractJSON reply ≫= JS.parse = Some analysis →
       fst (analyzeBrandVoice env create n (VArr (first :: rest)))
       = analysis).
Proof.
  split; [|split; [|split; [|split]]].
  - vm_compute. repeat split; discriminate.
  - intros e H. simpl. now rewrite H.
  - intros blocks H Hno. simpl. rewrite H.
    destruct blocks as [|[reply|] more]; try reflexivity.
    now destruct (Hno reply more).
  - intros reply more H Hnone.
    now rewrite (analyzeBrandVoice_reply _ _ _ _ _ _ _ H), Hnone.
  - intros reply more analysis H Hsome.
    now rewrite (analyzeBrandVoice_reply _ _ _ _ _ _ _ H), Hsome.
Qed.

Lemma analyzeBrandVoice_default_or_parsed_direct :
  fst (analyzeBrandVoice envExample (replyWith directReply) 0 oneExample)
  = profileValue directProfile.
Proof.
  exact (proj2 (proj2 (proj2 (proj2
           (analyzeBrandVoice_default_or_parsed envExample
              (replyWith directReply) 0%nat (VStr "We ship fast.") []))))
           directReply [] (profileValue directProfile) eq_refl eq_refl).
Defined.

(** The claim C3 as stated fails: a reply whose JSON holds the tone alone is
    returned as it is, with three fields missing. *)
Lemma analyzeBrandVoice_partial_profile :
  fst (analyzeBrandVoice envExample (replyWith partialReply) 0 oneExample)
  = obj [("tone", VStr "casual")]
  ∧ ¬ allFieldsPresent
        (fst (analyzeBrandVoice envExample (replyWith partialReply) 0 oneExample)).
Proof.
  split; [vm_compute; reflexivity|].
  intros (_ & Hstyle & _). apply Hstyle. vm_compute. reflexivity.
Qed.

(** C2. Without examples the analysis returns the default profile and makes
    no call. A list that is not empty leads to one gateway call whatever
    the filter leaves of it: with an example of empty content, which the
    handler builds from the legacy list holding one empty string, the filter
    leaves no example, yet the gateway is called, with a prompt that lists
    no example, and its reply is returned. *)
Theorem analyzeBrandVoice_empty_content :
  (∀ env create n,
     analyzeBrandVoice env create n (VArr []) = (defaultProfile, []))
  ∧ (∀ env create n first rest,
       snd (analyzeBrandVoice env create n (VArr (first :: rest)))
       = [analysisParams env (processedExamples (first :: rest))])
  ∧ examplesToUse (VArr [VStr ""]) = [emptyExample]
  ∧ processedExamples [emptyExample] = []
  ∧ analyzeBrandVoice envExample (replyWith directReply) 0 (VArr [emptyExample])
    = (profileValue directProfile, [analysisParams envExample []])
  ∧ messages (analysisParams envExample [])
    = PromptBlocks [TextParam (textPrompt false); TextParam replyFormat]
  ∧ profileValue directProfile ≠ defaultProfile.
Proof.
  repeat split; try (vm_compute; reflexivity).
  intros H. apply (f_equal (λ v, get v "tone")) in H. vm_compute in H.
  discriminate.
Qed.

(** ** The shape of the answers *)

(** X1. Every answer of the handler is a 200 with contents and analysis, a
    400 with a non-empty error message and no gateway call made, or a 500
    with a non-empty error message. *)
Theorem POST_response_shape env create schedule request resp calls :
  POST env create schedule request = (Some resp, calls) →
  (status resp = 200%nat ∧ ∃ contents analysis, body resp = ResultBody contents analysis)
  ∨ (status resp = 400%nat ∧ calls = []
     ∧ ∃ error, body resp = ErrorBody error ∧ error ≠ "")
  ∨ (status resp = 500%nat ∧ ∃ error, body resp = ErrorBody error ∧ error ≠ "").
Proof.
  unfold POST.
  destruct (isSet (ANTHROPIC_API_KEY env)); cbn [negb].
  2:{ intros [= <- <-]. right; right. split; [reflexivity|]. eexists. split; [reflexivity | discriminate]. }
  destruct request as [e|body].
  { intros [= <- <-]. right; right. split; [reflexivity|]. eexists. split; [reflexivity | discriminate]. }
  destruct ((0 <? length (examplesToUse (brandVoiceExamples body)))%nat && isEmpty (formats body)).
  { destruct (analyzeBrandVoice _ _ _ _). intros [= <- <-]. left. split; [reflexivity|]. eauto. }
  destruct (negb (isSet (topic body)) || negb (isSet (industry body)) || isEmpty (formats body)).
  { intros [= <- <-]. right; left. split; [reflexivity|]. split; [reflexivity|].
    eexists. split; [reflexivity | discriminate]. }
  destruct (brandVoiceFor env create body) as [bv calls0].
  destruct (generationPromises _ _ _ _ _ _ _) as [outcomes calls1].
  destruct (Promise_all outcomes schedule) as [[e|results]|]; intros [= <- <-].
  - right; right. split; [reflexivity|]. eexists. split; [reflexivity | discriminate].
  - left. split; [reflexivity|]. eauto.
Qed.

Lemma POST_response_shape_emptyTopic :
  ∃ resp calls,
    POST envExample (replyWith greekText) [] (inr emptyTopic) = (Some resp, calls)
    ∧ status resp = 400%nat ∧ calls = [].
Proof.
  eexists _, _. split; [reflexivity|].
  destruct (POST_response_shape envExample (replyWith greekText) []
              (inr emptyTopic) _ _ eq_refl)
    as [[H _]|[(H & Hcalls & _)|[H _]]];
    [simpl in H; congruence | split; [exact H | exact Hcalls]
    | simpl in H; congruence].
Defined.

(** ** More on the handler *)

Lemma brandVoiceFor_calls env create body :
  snd (brandVoiceFor env create body)
  = match examplesToUse (brandVoiceExamples body) with
    | [] => []
    | examples => [analysisParams env (processedExamples examples)]
    end.
Proof.
  unfold brandVoiceFor.
  destruct (examplesToUse (brandVoiceExamples body)); reflexivity.
Qed.

Lemma generationPromises_throw env create topic industry fs brandVoice e :
  voiceOf brandVoice = inl e →
  ∀ n,
    generationPromises env create n topic industry fs brandVoice
    = (replicate (length fs) (inl e), []).
Proof.
  intros Hv. induction fs as [|f fs IH]; intros n; [reflexivity|].
  cbn [generationPromises]. unfold generateContentForFormat at 1.
  rewrite Hv. cbn [length]. now rewrite IH.
Qed.

Lemma settle_all_rejected {A} e n schedule (slots : list (option A)) i :
  mapM id slots = None →
  i ∈ schedule → (i < n)%nat →
  settle (replicate n (inl e)) slots schedule = Some (inl e).
Proof.
  intros Hslots Hin Hlt. induction schedule as [|j rest IH];
    [now apply elem_of_nil in Hin|].
  simpl. rewrite Hslots.
  destruct (decide (j < n)%nat) as [Hj|Hj].
  - now rewrite lookup_replicate_2.
  - rewrite (proj1 (lookup_replicate_None n (inl e) j)) by lia.
    apply IH. apply elem_of_cons in Hin as [->|Hin]; [contradiction | exact Hin].
Qed.

Lemma settle_pending {A} (vs : list A) i schedule :
  ∀ slots,
    slots !! i = Some None →
    i ∉ schedule →
    settle (inr <$> vs) slots schedule = None.
Proof.
  induction schedule as [|j rest IH]; intros slots Hi Hout; simpl;
    rewrite (mapM_None_2 id slots)
      by (apply Exists_exists; exists None; split;
          [eapply list_elem_of_lookup_2; exact Hi | reflexivity]);
    [reflexivity|].
  apply not_elem_of_cons in Hout as [Hne Hout].
  rewrite list_lookup_fmap. destruct (vs !! j); simpl.
  - apply IH; [|exact Hout]. now rewrite list_lookup_insert_ne by congruence.
  - now apply IH.
Qed.

(** X2. On a valid generation request with a usable brand voice the gateway
    is called once for the analysis when the request carries examples, then
    once per requested format in the order of [formats], each generation
    prompt built from the profile the analysis returned. *)
Theorem POST_gateway_calls env create schedule body fs voice :
  isSet (ANTHROPIC_API_KEY env) = true →
  isSet (topic body) = true →
  isSet (industry body) = true →
  formats body = Some fs →
  fs ≠ [] →
  voiceOf (fst (brandVoiceFor env create body)) = inr voice →
  snd (POST env create schedule (inr body))
  = (match examplesToUse (brandVoiceExamples body) with
     | [] => []
     | examples => [analysisParams env (processedExamples examples)]
     end
     ++ ((λ f, generationParams env (default "" (topic body))
                 (default "" (industry body)) f
                 (fst (brandVoiceFor env create body))
                 (brandVoiceContext (fst (brandVoiceFor env create body)) voice))
           <$> fs))%list.
Proof.
  intros Hkey Ht Hi Hf Hne Hv.
  rewrite (POST_generate _ _ _ _ _ Hkey Ht Hi Hf Hne). cbn [snd].
  now rewrite (generationPromises_ok _ _ _ _ _ _ _ Hv), brandVoiceFor_calls.
Qed.

Lemma POST_gateway_calls_three :
  ∃ analysis,
    fst (brandVoiceFor envExample (replyWith directReply) calibrateAndWrite)
    = analysis
    ∧ snd (POST envExample (replyWith directReply) [] (inr calibrateAndWrite))
      = [analysisParams envExample
           [textExample (VStr "We ship fast."); textExample (VStr "No fluff.")];
         generationParams envExample "Quarterly launch" "FinTech" "blog" analysis
           (brandVoiceContext analysis (WithVoice [VStr "ship"]))].
Proof.
  eexists. split; [reflexivity|].
  exact (POST_gateway_calls envExample (replyWith directReply) [] calibrateAndWrite
           ["blog"] (WithVoice [VStr "ship"])
           eq_refl eq_refl eq_refl eq_refl ltac:(discriminate) eq_refl).
Defined.

(** X3. When reading the terminology of the brand voice throws (a profile
    without [terminology], as the analysis of a partial reply returns it),
    the whole request is answered 500 with the message of the exception as
    soon as one generation promise settles, and no generation call reaches
    the gateway. *)
Theorem POST_unusable_brand_voice env create schedule body fs e i :
  isSet (ANTHROPIC_API_KEY env) = true →
  isSet (topic body) = true →
  isSet (industry body) = true →
  formats body = Some fs →
  voiceOf (fst (brandVoiceFor env create body)) = inl e →
  i ∈ schedule → (i < length fs)%nat →
  POST env create schedule (inr body)
  = (Some (internalError e), snd (brandVoiceFor env create body)).
Proof.
  intros Hkey Ht Hi Hf Hv Hin Hlt.
  assert (fs ≠ []) as Hne by (intros ->; simpl in Hlt; lia).
  rewrite (POST_generate _ _ _ _ _ Hkey Ht Hi Hf Hne).
  rewrite (generationPromises_throw _ _ _ _ _ _ _ Hv). cbn [fst snd].
  unfold Promise_all. rewrite length_replicate.
  rewrite (settle_all_rejected e (length fs) schedule _ i); [|..|exact Hin|exact Hlt].
  - now rewrite app_nil_r.
  - apply mapM_None_2, Exists_exists. exists None. split; [|reflexivity].
    destruct fs; [contradiction | left].
Qed.

Lemma POST_unusable_brand_voice_partial :
  POST envExample (replyWith partialReply) [0]%nat (inr calibrateAndWrite)
  = (Some {| status := 500;
             body := ErrorBody "Internal server error: Cannot read properties of undefined (reading 'join')" |},
     [analysisParams envExample
        [textExample (VStr "We ship fast."); textExample (VStr "No fluff.")]]).
Proof.
  refine (POST_unusable_brand_voice envExample (replyWith partialReply) [0]%nat
            calibrateAndWrite ["blog"] _ 0%nat
            eq_refl eq_refl eq_refl eq_refl eq_refl _ _).
  - set_solver.
  - simpl. lia.
Defined.

(** X4. The handler answers only when every generation promise has
    settled: with a usable brand voice and one requested format whose call
    never settles, there is no response. *)
Theorem POST_pending env create schedule body fs voice i :
  isSet (ANTHROPIC_API_KEY env) = true →
  isSet (topic body) = true →
  isSet (industry body) = true →
  formats body = Some fs →
  voiceOf (fst (brandVoiceFor env create body)) = inr voice →
  (i < length fs)%nat → i ∉ schedule →
  fst (POST env create schedule (inr body)) = None.
Proof.
  intros Hkey Ht Hi Hf Hv Hlt Hout.
  assert (fs ≠ []) as Hne by (intros ->; simpl in Hlt; lia).
  rewrite (POST_generate _ _ _ _ _ Hkey Ht Hi Hf Hne).
  rewrite (generationPromises_ok _ _ _ _ _ _ _ Hv). cbn [fst snd].
  unfold Promise_all.
  rewrite (settle_pending _ i); [reflexivity| |exact Hout].
  apply lookup_replicate_2. now rewrite length_fmap, length_imap.
Qed.

Lemma POST_pending_blog_hangs :
  fst (POST envExample (replyWith greekText) [0]%nat (inr twoFormats)) = None.
Proof.
  apply (POST_pending envExample (replyWith greekText) [0]%nat twoFormats
           ["email"; "blog"] (WithVoice (VStr <$> terminology greekProfile)) 1%nat);
    try reflexivity.
  - simpl. lia.
  - intros H. apply list_elem_of_singleton in H. discriminate.
Defined.

(** X5. When the request carries usable examples, the [brandVoice] it
    supplies is ignored: the response and the gateway calls are those of the
    same request with any other [brandVoice]. *)
Theorem POST_examples_take_precedence env create schedule body (voice : value) :
  examplesToUse (brandVoiceExamples body) ≠ [] →
  POST env create schedule
    (inr {| topic := topic body; industry := industry body;
            formats := formats body; brandVoice := voice;
            brandVoiceExamples := brandVoiceExamples body |})
  = POST env create schedule (inr body).
Proof.
  intros Hne. unfold POST, brandVoiceFor.
  cbn [topic industry formats brandVoice brandVoiceExamples].
  destruct (examplesToUse (brandVoiceExamples body)); [contradiction|reflexivity].
Qed.

Lemma POST_examples_take_precedence_greek :
  POST envExample (replyWith directReply) [0]%nat
    (inr {| topic := Some "Quarterly launch"; industry := Some "FinTech";
            formats := Some ["blog"]; brandVoice := profileValue greekProfile;
            brandVoiceExamples := VArr [VStr "We ship fast."; VStr "No fluff."] |})
  = POST envExample (replyWith directReply) [0]%nat
      (inr {| topic := Some "Quarterly launch"; industry := Some "FinTech";
              formats := Some ["blog"]; brandVoice := VUndefined;
              brandVoiceExamples := VArr [VStr "We ship fast."; VStr "No fluff."] |}).
Proof.
  exact (POST_examples_take_precedence envExample (replyWith directReply) [0]%nat
           {| topic := Some "Quarterly launch"; industry := Some "FinTech";
              formats := Some ["blog"]; brandVoice := VUndefined;
              brandVoiceExamples := VArr [VStr "We ship fast."; VStr "No fluff."] |}
           (profileValue greekProfile) ltac:(discriminate)).
Defined.

(** ** Terms that are not strings *)

Lemma matchingTerms_non_string contentText terms t :
  t ∈ terms → isString t = false →
  ∃ e, matchingTerms contentText terms = inl e.
Proof.
  intros Hin Ht. induction terms as [|x terms IH];
    [now apply elem_of_nil in Hin|].
  apply elem_of_cons in Hin as [<-|Hin].
  - destruct t; try discriminate; simpl; eauto.
  - destruct (IH Hin) as [e He].
    destruct x; simpl; eauto. rewrite He. eauto.
Qed.

(** X6. A terminology entry that is not a string makes the scoring throw
    after the gateway has answered: the generated text is dropped and the
    piece holds the error text, without score. *)
Theorem generateContentForFormat_non_string_term env create n topic industry f
    brandVoice terms t params text rest :
  voiceOf brandVoice = inr (WithVoice terms) →
  t ∈ terms → isString t = false →
  snd (generateContentForFormat env create n topic industry f brandVoice)
  = [params] →
  create n params = Resolved (TextBlock text :: rest) →
  ∃ message,
    fst (generateContentForFormat env create n topic industry f brandVoice)
    = inr {| format := f;
             content := "Error generating " ++ f ++ " content: " ++ message
                        ++ ". Please check your API key and try again.";
             consistencyScore := None |}.
Proof.
  intros Hv Hin Ht Hcall Hreply.
  rewrite (generateContentForFormat_call _ _ _ _ _ _ _ _ Hv) in Hcall |- *.
  cbn [fst snd] in *.
  assert (generationParams env topic industry f brandVoice
            (brandVoiceContext brandVoice (WithVoice terms)) = params) as Hp
    by congruence.
  rewrite Hp, Hreply. cbn [contentOf].
  destruct (matchingTerms_non_string (JS.toLowerCase text) terms t Hin Ht) as [e He].
  exists (errorMessage e). unfold consistencyScoreOf.
  destruct terms as [|x terms]; [now apply elem_of_nil in Hin|].
  now rewrite He.
Qed.

Lemma generateContentForFormat_non_string_term_year :
  fst (generateContentForFormat envExample (replyWith greekText) 0
         "launch" "SaaS" "blog" yearVoice)
  = inr {| format := "blog";
           content := "Error generating blog content: term.toLowerCase is not a function. Please check your API key and try again.";
           consistencyScore := None |}.
Proof.
  destruct (generateContentForFormat_non_string_term envExample
              (replyWith greekText) 0%nat "launch" "SaaS" "blog" yearVoice
              [VStr "alpha"; VNum 2024] (VNum 2024) _ greekText []
              eq_refl ltac:(set_solver) eq_refl eq_refl eq_refl) as [message H].
  rewrite H. vm_compute in H. injection H as H. vm_compute.
  now rewrite H.
Defined.

(** ** More on the consistency score *)








Lemma consistencyScoreOf_strings text t ts :
  ∃ k, matchedCount text (t :: ts) k
       ∧ consistencyScoreOf (WithVoice (VStr <$> t :: ts)) text
         = inr (Some (scoreFormula k (length (t :: ts)))).
Proof.
  destruct (matchingTerms_strings text (t :: ts)) as (k & Hk & Hcount).
  exists k. split; [exact Hcount|].
  unfold consistencyScoreOf. rewrite fmap_cons in *. rewrite Hk.
  cbn [length]. now rewrite length_fmap.
Qed.



Lemma matchingTerms_ignores_case contentText ts ts' :
  Forall2 eqIgnoreCase ts ts' →
  matchingTerms contentText (VStr <$> ts) = matchingTerms contentText (VStr <$> ts').
Proof.
  induction 1 as [|t t' ts ts' Ht _ IH]; [reflexivity|].
  rewrite !fmap_cons. simpl.
  apply eqIgnoreCase_toLowerCase in Ht. now rewrite IH, Ht.
Qed.

(** X8. The score does not depend on the case of the letters of the text
    or of the terms. *)
Theorem consistencyScore_ignores_case text text' ts ts' :
  eqIgnoreCase text text' →
  Forall2 eqIgnoreCase ts ts' →
  consistencyScoreOf (WithVoice (VStr <$> ts)) text
  = consistencyScoreOf (WithVoice (VStr <$> ts')) text'.
Proof.
  intros Htext Hts. apply eqIgnoreCase_toLowerCase in Htext.
  pose proof (Forall2_length _ _ _ Hts) as Hlen.
  pose proof (matchingTerms_ignores_case (JS.toLowerCase text) _ _ Hts) as Hm.
  destruct Hts as [|t t' ts ts' Ht Hts]; [reflexivity|].
  unfold consistencyScoreOf. rewrite !fmap_cons in *.
  rewrite <- Htext, Hm. cbn [length] in *. rewrite !length_fmap.
  now injection Hlen as ->.
Qed.

Lemma consistencyScore_ignores_case_shouting :
  consistencyScoreOf (WithVoice [VStr "Alpha"; VStr "BETA"]) "alpha and omega"
  = consistencyScoreOf (WithVoice [VStr "aLPHA"; VStr "beta"]) "ALPHA AND OMEGA".
Proof.
  apply (consistencyScore_ignores_case "alpha and omega" "ALPHA AND OMEGA"
           ["Alpha"; "BETA"] ["aLPHA"; "beta"]).
  - now apply eqIgnoreCase_toLowerCase.
  - repeat constructor; now apply eqIgnoreCase_toLowerCase.
Defined.

Lemma matchedCount_permutation text ts ts' :
  ts ≡ₚ ts' → ∀ k, matchedCount text ts k → matchedCount text ts' k.
Proof.
  induction 1 as [|t ts ts' _ IH|t u ts|ts ts' ts'' _ IH1 _ IH2]; intros k Hk.
  - exact Hk.
  - inversion Hk; subst; [apply mc_hit | apply mc_miss]; auto.
  - inversion Hk as [|? ? k1 Hu Hk1|? ? k1 Hu Hk1]; subst;
      inversion Hk1 as [|? ? k2 Ht Hk2|? ? k2 Ht Hk2]; subst;
      repeat (first [apply mc_hit; [assumption|] | apply mc_miss; [assumption|]]);
      assumption.
  - auto.
Qed.

(** X9. The score does not depend on the order of the terms. *)
Theorem consistencyScore_ignores_order text ts ts' :
  ts ≡ₚ ts' →
  consistencyScoreOf (WithVoice (VStr <$> ts)) text
  = consistencyScoreOf (WithVoice (VStr <$> ts')) text.
Proof.
  intros Hp. pose proof (Permutation_length Hp) as Hlen.
  destruct ts as [|t ts], ts' as [|t' ts']; try discriminate; [reflexivity|].
  destruct (consistencyScoreOf_strings text t ts) as (k & Hk & ->).
  destruct (consistencyScoreOf_strings text t' ts') as (k' & Hk' & ->).
  rewrite Hlen.
  now rewrite (matchedCount_unique _ _ _ _ (matchedCount_permutation _ _ _ Hp _ Hk) Hk').
Qed.

Lemma consistencyScore_ignores_order_swap :
  consistencyScoreOf (WithVoice [VStr "alpha"; VStr "omega"]) greekText
  = consistencyScoreOf (WithVoice [VStr "omega"; VStr "alpha"]) greekText.
Proof.
  apply (consistencyScore_ignores_order greekText ["alpha"; "omega"] ["omega"; "alpha"]).
  apply perm_swap.
Defined.

(** ** The colour of a score *)

Lemma contentOf_score_bounds f voice reply s :
  consistencyScore (contentOf f voice reply) = Some s → (70 <= s <= 95)%Q.
Proof.
  unfold contentOf, errorContent.
  destruct reply as [[|[text|] blocks]|e]; simpl; try discriminate.
  destruct voice as [|[|term terms]]; unfold consistencyScoreOf.
  - simpl. discriminate.
  - simpl. intros [= <-]. split; discriminate.
  - destruct (matchingTerms _ (term :: terms)) as [e|k]; simpl; [discriminate|].
    intros [= <-]. apply scoreFormula_bounds.
Qed.

Lemma getConsistencyColor_in_range s :
  (70 <= s <= 95)%Q →
  getConsistencyColor (Some s)
  = if Qle_bool 85 s then "text-green-600" else "text-yellow-600".
Proof.
  intros [Hlo Hhi]. unfold getConsistencyColor.
  destruct (Qeq_bool s 0) eqn:H0.
  - apply Qeq_bool_iff in H0. lra.
  - destruct (Qle_bool 85 s); [reflexivity|].
    now rewrite (proj2 (Qle_bool_iff 70 s) Hlo).
Qed.

(** X10. The dashboard never shows a generated piece in red: the colour is
    gray exactly when the piece has no score, green for a score of 85 or
    more, yellow below. *)
Theorem getConsistencyColor_of_generated env create n topic industry f
    brandVoice r :
  fst (generateContentForFormat env create n topic industry f brandVoice)
  = inr r →
  (consistencyScore r = None
   ∧ getConsistencyColor (consistencyScore r) = "text-gray-500")
  ∨ (∃ s, consistencyScore r = Some s ∧ (85 <= s)%Q
          ∧ getConsistencyColor (consistencyScore r) = "text-green-600")
  ∨ (∃ s, consistencyScore r = Some s ∧ (s < 85)%Q
          ∧ getConsistencyColor (consistencyScore r) = "text-yellow-600").
Proof.
  unfold generateContentForFormat.
  destruct (voiceOf brandVoice) as [e|voice]; [discriminate|].
  cbn [fst]. intros [= <-].
  destruct (consistencyScore (contentOf f voice _)) as [s|] eqn:Hs;
    [|left; split; reflexivity].
  right. rewrite (getConsistencyColor_in_range s (contentOf_score_bounds _ _ _ _ Hs)).
  destruct (Qle_bool 85 s) eqn:H85.
  - left. exists s. apply Qle_bool_iff in H85. auto.
  - right. exists s. split; [reflexivity|]. split; [|reflexivity].
    apply Qnot_le_lt. intros H. apply Qle_bool_iff in H. congruence.
Qed.

Lemma getConsistencyColor_of_generated_greek :
  ∃ r,
    fst (generateContentForFormat envExample (replyWith greekText) 0
           "launch" "SaaS" "blog" (profileValue greekProfile)) = inr r
    ∧ getConsistencyColor (consistencyScore r) = "text-yellow-600".
Proof.
  eexists. split; [reflexivity|].
  destruct (getConsistencyColor_of_generated envExample (replyWith greekText) 0%nat
              "launch" "SaaS" "blog" (profileValue greekProfile) _ eq_refl)
    as [[H _]|[(s & H & H85 & _)|(s & _ & _ & H)]].
  - discriminate H.
  - vm_compute in H. injection H as <-. now vm_compute in H85.
  - exact H.
Defined.



(** ** The examples of the legacy shape *)

Lemma get_textExample_type v : get (textExample v) "type" = VStr "text".
Proof. reflexivity. Qed.

Lemma get_textExample_content v : get (textExample v) "content" = v.
Proof. reflexivity. Qed.

(** X12. Of a list of strings in the legacy shape the analysis keeps the
    non-empty ones, in order, each wrapped as a text example. *)
Theorem processedExamples_legacy (ss : list string) :
  processedExamples (VStr <$> ss)
  = (λ s, textExample (VStr s)) <$> List.filter (λ s, negb (String.eqb s "")) ss.
Proof.
  unfold processedExamples. induction ss as [|s ss IH]; [reflexivity|].
  rewrite !fmap_cons. cbn [List.filter isString].
  unfold orElse at 1. rewrite get_textExample_content. cbn [truthy andb].
  destruct (negb (String.eqb s "")) eqn:Hs; cbn [truthy]; rewrite ?Hs.
  - rewrite fmap_cons. now f_equal.
  - cbn [get textExample]. exact IH.
Qed.

Lemma exampleBlocks_text i s :
  exampleBlocks i (textExample (VStr s))
  = if String.eqb (JS.trim s) "" then []
    else [TextParam (nl ++ "Example " ++ JS.natToString (i + 1) ++ ":" ++ nl
                     ++ s ++ nl)].
Proof.
  unfold exampleBlocks, imageBlocks, textBlocks.
  rewrite get_textExample_type, get_textExample_content.
  cbn [truthy negb isStr String.eqb Ascii.eqb Bool.eqb andb orb app].
  now destruct (String.eqb (JS.trim s) "").
Qed.

Lemma hasImages_text (ss : list string) :
  hasImages ((λ s, textExample (VStr s)) <$> ss) = false.
Proof. induction ss as [|s ss IH]; [reflexivity|]. rewrite fmap_cons. exact IH. Qed.

(** X13. The message built from legacy examples: the instructions for
    text, one block per kept example that is not blank, numbered by its
    position among the kept ones (a blank example uses up a number), and
    the reply format. *)
Theorem messageContent_legacy (ss : list string) :
  messageContent (processedExamples (VStr <$> ss))
  = (TextParam (textPrompt false)
     :: mjoin (imap (λ i s,
                 if String.eqb (JS.trim s) "" then []
                 else [TextParam (nl ++ "Example " ++ JS.natToString (i + 1)
                                  ++ ":" ++ nl ++ s ++ nl)])
               (List.filter (λ s, negb (String.eqb s "")) ss))
     ++ [TextParam replyFormat])%list.
Proof.
  rewrite processedExamples_legacy. unfold messageContent.
  rewrite hasImages_text, imap_fmap. do 3 f_equal.
  apply imap_ext. intros i s _. apply exampleBlocks_text.
Qed.

(** ** Image examples *)

Lemma beforeChar_append c a b :
  noChar c a → JS.beforeChar c (a ++ String c b) = a.
Proof.
  induction a as [|x a IH]; simpl; intros Hn.
  - now rewrite Ascii.eqb_refl.
  - apply noChar_cons in Hn as [Hne Hn].
    destruct (Ascii.eqb_spec x c); [contradiction|]. now rewrite IH.
Qed.

Lemma beforeChar_none c s : noChar c s → JS.beforeChar c s = s.
Proof.
  induction s as [|x s IH]; simpl; intros Hn; [reflexivity|].
  apply noChar_cons in Hn as [Hne Hn].
  destruct (Ascii.eqb_spec x c); [contradiction|]. now rewrite IH.
Qed.

Lemma afterChar_append c a b :
  noChar c a → JS.afterChar c (a ++ String c b) = Some b.
Proof.
  induction a as [|x a IH]; simpl; intros Hn.
  - now rewrite Ascii.eqb_refl.
  - apply noChar_cons in Hn as [Hne Hn].
    destruct (Ascii.eqb_spec x c); [contradiction|]. now apply IH.
Qed.

Lemma includes_char c a b : JS.includes (a ++ String c b) (String c "") = true.
Proof. apply includes_spec. now exists a, b. Qed.

Lemma includes_noChar c s : noChar c s → JS.includes s (String c "") = false.
Proof.
  intros Hn. destruct (JS.includes s (String c "")) eqn:Hi; [|reflexivity].
  apply includes_spec in Hi as (pre & post & ->).
  unfold noChar in Hn. rewrite allChars_append in Hn.
  apply andb_prop in Hn as [_ Hn]. simpl in Hn.
  rewrite Ascii.eqb_refl in Hn. discriminate.
Qed.

(** The media type the form reads off a data URL. *)
Lemma dataUrlType_data_url mime rest :
  mime ≠ "" → noChar ";" mime →
  dataUrlType ("data:" ++ mime ++ ";" ++ rest) = Some mime.
Proof.
  intros Hne Hn. cbn [dataUrlType String.append stripPrefix Ascii.eqb Bool.eqb].
  cbn.
  rewrite beforeChar_append by exact Hn.
  destruct mime; [contradiction|reflexivity].
Qed.

(** X14. An image uploaded as a data URL reaches the model as one image
    block, with the media type named in the URL and the payload after the
    comma, followed by the note for an image without description. *)
Theorem exampleBlocks_data_url (i : nat) (mime payload : string) :
  mime ≠ "" → noChar ";" mime → noChar "," mime → noChar "," payload →
  exampleBlocks i
    (formatExample {| exType := ImageType;
                      exContent := "data:" ++ mime ++ ";base64," ++ payload |})
  = [ImageParam (VStr mime) payload;
     TextParam (nl ++ "Example " ++ JS.natToString (i + 1)
                ++ " (Image): Analyze the visual style, colors, typography, and design elements."
                ++ nl)].
Proof.
  intros Hne Hsemi Hcomma Hpayload.
  unfold exampleBlocks, formatExample. cbn [exType exContent].
  set (content := "data:" ++ mime ++ ";base64," ++ payload).
  assert (dataUrlType content = Some mime) as ->
    by (now apply (dataUrlType_data_url mime ("base64," ++ payload))).
  assert (content = ("data:" ++ mime ++ ";base64") ++ String "," payload) as Hc
    by (unfold content; reassociate).
  assert (content ≠ "") as Hcne by discriminate.
  assert (noChar "," ("data:" ++ mime ++ ";base64")) as Hpre.
  { unfold noChar. rewrite !allChars_append. rewrite Hcomma. reflexivity. }
  change (truthy (obj _)) with true. cbn [negb].
  unfold imageBlocks, textBlocks.
  change (get (obj _) "type") with (VStr "image").
  change (get (obj _) "content") with (VStr content).
  change (get (obj _) "textContent") with VUndefined.
  change (get (obj _) "mimeType")
    with (orElse (default VUndefined (VStr <$> Some mime)) (VStr "image/png")).
  cbn [isStr String.eqb Ascii.eqb Bool.eqb orb andb truthy negb orElse fmap
         option_fmap option_map default].
  unfold orElse, id. cbn [truthy].
  apply String.eqb_neq in Hcne, Hne. rewrite Hcne, !Hne.
  cbn [negb truthy]. rewrite ?Hne. cbn [negb].
  assert (JS.includes content "," = true) as ->
    by (rewrite Hc; apply includes_char).
  assert (JS.split_1 "," content = Some payload) as ->.
  { unfold JS.split_1. rewrite Hc, afterChar_append by exact Hpre.
    cbn [fmap option_fmap option_map]. now rewrite beforeChar_none. }
  reflexivity.
Qed.

Lemma exampleBlocks_data_url_jpeg :
  exampleBlocks 0
    (formatExample {| exType := ImageType;
                      exContent := "data:image/jpeg;base64,/9j/4AAQ" |})
  = [ImageParam (VStr "image/jpeg") "/9j/4AAQ";
     TextParam (nl ++ "Example 1 (Image): Analyze the visual style, colors, typography, and design elements." ++ nl)].
Proof.
  exact (exampleBlocks_data_url 0 "image/jpeg" "/9j/4AAQ"
           ltac:(discriminate) eq_refl eq_refl eq_refl).
Defined.

(** X15. A mixed example reaches the model as an image block followed by two
    text blocks that both carry its description; alone, it does not switch
    the instructions to those for images. *)
Theorem exampleBlocks_mixed (i : nat) (ex : value) (content caption : string) :
  get ex "type" = VStr "mixed" →
  get ex "content" = VStr content → content ≠ "" → noChar "," content →
  get ex "textContent" = VStr caption → JS.trim caption ≠ "" →
  exampleBlocks i ex
  = [ImageParam (orElse (get ex "mimeType") (VStr "image/png")) content;
     TextParam (nl ++ "Example " ++ JS.natToString (i + 1)
                ++ " (Image with description): " ++ caption ++ nl
                ++ "Analyze both the visual style, colors, typography, design elements, AND the writing style of the description."
                ++ nl);
     TextParam (nl ++ "Example " ++ JS.natToString (i + 1)
                ++ " (Text description for image):" ++ nl ++ caption ++ nl)]
  ∧ hasImages [ex] = false.
Proof.
  intros Htype Hcontent Hne Hcomma Hcaption Htrim.
  assert (caption ≠ "") as Hcap by (intros ->; now apply Htrim).
  assert (truthy ex = true) as Hex
    by (destruct ex; try discriminate; reflexivity).
  apply String.eqb_neq in Hne, Htrim, Hcap.
  split.
  - unfold exampleBlocks, imageBlocks, textBlocks.
    rewrite Hex, Htype, Hcontent, Hcaption.
    cbn [isStr String.eqb Ascii.eqb Bool.eqb orb andb truthy negb].
    rewrite Hne. cbn [negb]. rewrite includes_noChar by exact Hcomma.
    unfold orElse at 2 3. cbn [truthy]. rewrite Hcap. cbn [negb].
    rewrite Htrim. cbn [negb].
    destruct (JS.startsWith content "data:"); reflexivity.
  - unfold hasImages. cbn [existsb]. rewrite Htype. reflexivity.
Qed.

Lemma exampleBlocks_mixed_banner :
  hasImages
    [obj [("type", VStr "mixed"); ("content", VStr "iVBORw0KGgo");
          ("textContent", VStr "Launch banner")]]
  = false.
Proof.
  exact (proj2 (exampleBlocks_mixed 0
                  (obj [("type", VStr "mixed"); ("content", VStr "iVBORw0KGgo");
                        ("textContent", VStr "Launch banner")])
                  "iVBORw0KGgo" "Launch banner"
                  eq_refl eq_refl ltac:(discriminate) eq_refl eq_refl
                  ltac:(discriminate))).
Defined.

(** ** More on the extraction *)

Lemma star_keeps {A} p s (k : string → option A) x :
  JS.star p s k = Some x → ∃ s', k s' = Some x.
Proof. intros H. apply star_inv in H as (a & s' & _ & Hk). eauto. Qed.

Lemma rmatch_keeps {A} r :
  ∀ s c (k : string → option string → option A) x,
    JS.rmatch r s (Some c) k = Some x → ∃ s' c', k s' (Some c') = Some x.
Proof.
  induction r as [|a|p|r IH|r1 IH1 r2 IH2|r IH]; intros s c k x H; simpl in H.
  - eauto.
  - destruct s as [|b s]; [discriminate|].
    destruct (Ascii.eqb b a); [eauto | discriminate].
  - apply star_keeps in H as [s' H]. eauto.
  - destruct (JS.rmatch r s (Some c) k) as [y|] eqn:Hr.
    + injection H as ->. eauto.
    + eauto.
  - apply IH1 in H as (s1 & c1 & H). eauto.
  - apply IH in H as (s' & c' & H). eauto.
Qed.

Lemma rmatch_captures {A} r :
  captures r = true →
  ∀ s cap (k : string → option string → option A) x,
    JS.rmatch r s cap k = Some x → ∃ s' c', k s' (Some c') = Some x.
Proof.
  induction r as [|a|p|r IH|r1 IH1 r2 IH2|r IH]; simpl; try discriminate;
    intros Hc s cap k x H.
  - destruct (captures r1) eqn:H1.
    + apply (IH1 eq_refl) in H as (s1 & c1 & H).
      apply rmatch_keeps in H. exact H.
    + apply rmatch_inv in H as (a & s1 & cap1 & _ & H & _).
      apply (IH2 Hc) in H. exact H.
  - apply rmatch_inv in H as (a & s' & cap' & _ & H & _). eauto.
Qed.

Lemma exec_captures r s m :
  captures r = true → JS.exec r s = Some m → ∃ c, JS.m1 m = Some c.
Proof.
  intros Hc. induction s as [|a s IH]; simpl; intros H.
  - destruct (JS.rmatch r "" None _) as [[rest cap]|] eqn:Hr; [|discriminate].
    injection H as <-. simpl.
    apply (rmatch_captures r Hc) in Hr as (s' & c' & [= _ <-]). eauto.
  - destruct (JS.rmatch r (String a s) None _) as [[rest cap]|] eqn:Hr; [|auto].
    injection H as <-. simpl.
    apply (rmatch_captures r Hc) in Hr as (s' & c' & [= _ <-]). eauto.
Qed.

Lemma star_self {A} p b (k : string → option A) r :
  k b = Some r → ∃ r', JS.star p b k = Some r'.
Proof.
  intros Hk. destruct b as [|c b]; simpl; [eauto|].
  destruct (p c); [|eauto]. destruct (JS.star p b k); eauto.
Qed.

Lemma star_any_some {A} a b (k : string → option A) r :
  k b = Some r → ∃ r', JS.star JS.anyChar (a ++ b) k = Some r'.
Proof.
  intros Hk. induction a as [|c a [r' IH]]; simpl.
  - eapply star_self. exact Hk.
  - rewrite IH. eauto.
Qed.

Lemma exec_later r pre t m :
  JS.exec r t = Some m → ∃ m', JS.exec r (pre ++ t) = Some m'.
Proof.
  intros H. induction pre as [|c pre [m' IH]]; [eauto|].
  simpl. destruct (JS.rmatch r _ None _) as [[rest cap]|]; eauto.
Qed.

Lemma exec_step r a s :
  JS.exec r (String a s)
  = match JS.rmatch r (String a s) None (λ rest cap, Some (rest, cap)) with
    | Some (rest, cap) =>
        Some {| JS.m0 := JS.take (String.length (String a s) - String.length rest)
                           (String a s);
                JS.m1 := cap |}
    | None => JS.exec r s
    end.
Proof. reflexivity. Qed.

(** The span pattern matches wherever a [{] is followed, later, by a [}]. *)
Lemma objectRegex_some pre mid post :
  ∃ m, JS.exec objectRegex (pre ++ "{" ++ mid ++ "}" ++ post) = Some m.
Proof.
  destruct (star_any_some mid (String "}" post)
              (λ s, match s with
                    | String a s' =>
                        if Ascii.eqb a "}" then Some (s', @None string) else None
                    | "" => None
                    end) (post, None) eq_refl) as [[rest cap] Hstar].
  apply exec_later with (m := {| JS.m0 := JS.take (String.length ("{" ++ mid ++ "}" ++ post) - String.length rest) ("{" ++ mid ++ "}" ++ post); JS.m1 := cap |}).
  apply exec_here. simpl. exact Hstar.
Qed.

(** What the span pattern matches starts with [{] and ends with [}]. *)
Lemma objectRegex_shape s m :
  JS.exec objectRegex s = Some m → ∃ mid, JS.m0 m = "{" ++ mid ++ "}".
Proof.
  assert (∀ t rest cap,
            JS.rmatch objectRegex t None (λ rest cap, Some (rest, cap))
            = Some (rest, cap) →
            ∃ mid, JS.take (String.length t - String.length rest) t
                   = "{" ++ mid ++ "}") as Hhere.
  { intros t rest cap H. simpl in H.
    destruct t as [|c t]; [discriminate|].
    destruct (Ascii.eqb_spec c "{") as [->|]; [|discriminate].
    apply star_inv in H as (mid & s' & -> & H).
    destruct s' as [|d s']; [discriminate|].
    destruct (Ascii.eqb_spec d "}") as [->|]; [|discriminate].
    injection H as -> _. exists mid.
    replace (String "{" (mid ++ String "}" rest)) with (("{" ++ mid ++ "}") ++ rest)
      by reassociate.
    apply take_rest. }
  induction s as [|a s IH]; [discriminate|].
  rewrite exec_step.
  destruct (JS.rmatch objectRegex (String a s) None _) as [[rest cap]|] eqn:Hr;
    [|exact IH].
  intros [= <-]. exact (Hhere _ _ _ Hr).
Qed.

(** X16. The extraction never throws: it produces a text that occurs in
    the reply and that either runs from a [{] to a [}] or holds no [{]
    followed by a [}]. *)
Theorem extractJSON_shape reply :
  ∃ t, extractJSON reply = Some t
       ∧ occursIn t reply
       ∧ ((∃ mid, t = "{" ++ mid ++ "}")
          ∨ ∀ pre mid post, t ≠ pre ++ "{" ++ mid ++ "}" ++ post).
Proof.
  assert (∃ t, extractJSON reply = Some t
               ∧ ((∃ mid, t = "{" ++ mid ++ "}")
                  ∨ ∀ pre mid post, t ≠ pre ++ "{" ++ mid ++ "}" ++ post))
    as (t & Ht & Hshape).
  { unfold extractJSON.
    assert (∃ text, match JS.exec fenceRegex (JS.trim reply) with
                    | Some jsonMatch => JS.m1 jsonMatch
                    | None => Some (JS.trim reply)
                    end = Some text) as [text ->].
    { destruct (JS.exec fenceRegex (JS.trim reply)) as [m|] eqn:Hm; [|eauto].
      exact (exec_captures fenceRegex _ _ eq_refl Hm). }
    cbn [mbind option_bind].
    destruct (JS.exec objectRegex text) as [m|] eqn:Hm.
    - eexists. split; [reflexivity|]. left. exact (objectRegex_shape _ _ Hm).
    - eexists. split; [reflexivity|]. right. intros pre mid post ->.
      destruct (objectRegex_some pre mid post) as [m' Hm']. congruence. }
  exists t. split; [exact Ht|]. split; [|exact Hshape].
  now apply extractJSON_occursIn.
Qed.

(** X17. A reply without backtick and without [{] is parsed as it is,
    trimmed, and whatever JSON value it holds is returned as the profile,
    [null] included. *)
Theorem analyzeBrandVoice_not_an_object env create n first rest reply blocks
    analysis :
  create n (analysisParams env (processedExamples (first :: rest)))
  = Resolved (TextBlock reply :: blocks) →
  noChar "`" (JS.trim reply) →
  noChar "{" (JS.trim reply) →
  JS.parse (JS.trim reply) = Some analysis →
  fst (analyzeBrandVoice env create n (VArr (first :: rest))) = analysis.
Proof.
  intros Hreply Hfence Hbrace Hparse.
  rewrite (analyzeBrandVoice_reply _ _ _ _ _ _ _ Hreply).
  unfold extractJSON. unfold fenceRegex at 1. cbn [JS.word].
  rewrite (exec_none _ _ _ Hfence). cbn [mbind option_bind].
  unfold objectRegex. rewrite (exec_none _ _ _ Hbrace).
  cbn [mbind option_bind]. now rewrite Hparse.
Qed.

Lemma analyzeBrandVoice_not_an_object_null :
  fst (analyzeBrandVoice envExample (replyWith " null ") 0 oneExample) = VNull.
Proof.
  apply (analyzeBrandVoice_not_an_object envExample (replyWith " null ") 0%nat
           (VStr "We ship fast.") [] " null " []); reflexivity.
Defined.

(** ** The forms *)

Lemma existsb_eqb (format : string) (l : list string) :
  existsb (String.eqb format) l = true ↔ format ∈ l.
Proof.
  rewrite existsb_exists. split.
  - intros (x & Hin & Heq). apply String.eqb_eq in Heq as ->.
    now apply list_elem_of_In.
  - intros Hin. exists format. split; [now apply list_elem_of_In|].
    apply String.eqb_refl.
Qed.

Lemma elem_of_List_filter {A} (p : A → bool) (l : list A) (x : A) :
  x ∈ List.filter p l ↔ x ∈ l ∧ p x = true.
Proof. rewrite !list_elem_of_In. apply filter_In. Qed.

Lemma filter_absent (format : string) (l : list string) :
  format ∉ l → List.filter (λ f, negb (String.eqb f format)) l = l.
Proof.
  induction l as [|a l IH]; intros Hin; [reflexivity|].
  apply not_elem_of_cons in Hin as [Hne Hin]. simpl.
  destruct (String.eqb_spec a format); [congruence|]. simpl.
  now rewrite IH.
Qed.

Lemma NoDup_List_filter {A} (p : A → bool) (l : list A) :
  NoDup l → NoDup (List.filter p l).
Proof.
  induction 1 as [|x l Hx Hnd IH]; simpl; [constructor|].
  destruct (p x); [|exact IH].
  constructor; [|exact IH]. rewrite elem_of_List_filter. tauto.
Qed.

(** X18. Toggling a format flips whether it is selected and leaves the other
    formats as they were; a selection without duplicates stays so. *)
Theorem toggleFormat_flips (prev : list string) (format : string) :
  NoDup prev →
  NoDup (toggleFormat prev format)
  ∧ (format ∈ toggleFormat prev format ↔ format ∉ prev)
  ∧ ∀ f, f ≠ format → (f ∈ toggleFormat prev format ↔ f ∈ prev).
Proof.
  intros Hnd. unfold toggleFormat.
  destruct (existsb (String.eqb format) prev) eqn:Hex.
  - apply existsb_eqb in Hex. split; [now apply NoDup_List_filter|]. split.
    + rewrite elem_of_List_filter, String.eqb_refl. simpl. split.
      * intros [_ ?]. discriminate.
      * intros Hn. contradiction.
    + intros f Hne. rewrite elem_of_List_filter. split; [now intros [? _]|].
      intros Hin. split; [exact Hin|].
      now destruct (String.eqb_spec f format).
  - assert (format ∉ prev) as Hn.
    { intros Hin. apply existsb_eqb in Hin. congruence. }
    split; [|split].
    + apply NoDup_app. split; [exact Hnd|]. split; [|apply NoDup_singleton].
      intros x Hx Hx'. apply list_elem_of_singleton in Hx' as ->. contradiction.
    + rewrite elem_of_app, list_elem_of_singleton. tauto.
    + intros f Hne. rewrite elem_of_app, list_elem_of_singleton. tauto.
Qed.

Lemma toggleFormat_flips_twitter :
  NoDup (toggleFormat ["blog"] "twitter")
  ∧ ("twitter" ∈ toggleFormat ["blog"] "twitter" ↔ "twitter" ∉ ["blog"])
  ∧ ∀ f, f ≠ "twitter" → (f ∈ toggleFormat ["blog"] "twitter" ↔ f ∈ ["blog"]).
Proof.
  apply (toggleFormat_flips ["blog"] "twitter").
  apply NoDup_singleton.
Defined.

(** X19. Toggling a format twice restores a selection that did not hold it,
    and moves it to the end of a selection that held it. *)
Theorem toggleFormat_twice (prev : list string) (format : string) :
  toggleFormat (toggleFormat prev format) format
  = if existsb (String.eqb format) prev
    then (List.filter (λ f, negb (String.eqb f format)) prev ++ [format])%list
    else prev.
Proof.
  unfold toggleFormat at 2.
  destruct (existsb (String.eqb format) prev) eqn:Hex.
  - unfold toggleFormat.
    destruct (existsb _ (List.filter _ prev)) eqn:Hex'; [|reflexivity].
    apply existsb_eqb, elem_of_List_filter in Hex' as [_ H].
    rewrite String.eqb_refl in H. discriminate.
  - unfold toggleFormat.
    assert (format ∉ prev) as Hn.
    { intros Hin. apply existsb_eqb in Hin. congruence. }
    destruct (existsb _ (prev ++ [format])) eqn:Hex'.
    + rewrite List.filter_app, filter_absent by exact Hn. simpl.
      rewrite String.eqb_refl. simpl. apply app_nil_r.
    + assert (format ∈ (prev ++ [format])%list) as Hin
        by (apply elem_of_app; right; apply list_elem_of_singleton; reflexivity).
      apply existsb_eqb in Hin. congruence.
Qed.



Lemma trim_nonempty (s : string) : String.eqb (JS.trim s) "" = false → s ≠ "".
Proof. intros H ->. discriminate. Qed.

Lemma server_missing_key env create schedule body :
  isSet (ANTHROPIC_API_KEY env) = false →
  server env create schedule body
  = Some {| status := 500;
            body := ErrorBody "ANTHROPIC_API_KEY is not configured. Please set it in your .env.local file." |}.
Proof. intros Hkey. unfold server, POST. now rewrite Hkey. Qed.

(** X21. Whenever the studio form reaches its results, the server was
    configured and answered 200 with one piece per selected format, in the
    order of the selection. *)
Theorem handleGenerate_results env create schedule statusText
    (topic industry : string) (selectedFormats : list string)
    (examples : list value) (brandVoice : value) contents voice :
  handleGenerate (server env create schedule) statusText topic industry
    selectedFormats examples brandVoice = Results contents voice →
  isSet (ANTHROPIC_API_KEY env) = true
  ∧ ∃ cs, contents = Some cs ∧ format <$> cs = selectedFormats.
Proof.
  unfold handleGenerate.
  destruct (String.eqb (JS.trim topic) "") eqn:Ht; [discriminate|].
  destruct (String.eqb (JS.trim industry) "") eqn:Hi; [discriminate|].
  destruct selectedFormats as [|f fs]; [discriminate|].
  cbn [orb length Nat.eqb].
  destruct (isSet (ANTHROPIC_API_KEY env)) eqn:Hkey.
  - unfold server.
    rewrite (POST_generate env create schedule _ (f :: fs) Hkey); try done.
    + cbn [fst].
      destruct (Promise_all _ schedule) as [[e|results]|] eqn:HP;
        [| |discriminate].
      * cbn. destruct (JS.includes _ _); discriminate.
      * cbn. intros [= <- <-]. split; [reflexivity|].
        exists results. split; [reflexivity|].
        eapply results_formats; [eapply Promise_all_inv; exact HP|].
        apply generationPromises_formats.
    + cbn. destruct topic; [discriminate|reflexivity].
    + cbn. now rewrite Hi.
  - rewrite server_missing_key by exact Hkey. discriminate.
Qed.

Lemma handleGenerate_results_two_formats :
  ∃ contents voice,
    handleGenerate (server envExample (replyWith greekText) [1; 0]%nat)
      (λ _, "OK") "Quarterly launch" " FinTech " ["email"; "blog"] []
      (profileValue greekProfile) = Results contents voice
    ∧ isSet (ANTHROPIC_API_KEY envExample) = true
    ∧ ∃ cs, contents = Some cs ∧ format <$> cs = ["email"; "blog"].
Proof.
  destruct (handleGenerate (server envExample (replyWith greekText) [1; 0]%nat)
              (λ _, "OK") "Quarterly launch" " FinTech " ["email"; "blog"] []
              (profileValue greekProfile)) as [| |contents voice|] eqn:H;
    try (vm_compute in H; discriminate).
  exists contents, voice. split; [reflexivity|].
  exact (handleGenerate_results _ _ _ _ _ _ _ _ _ _ _ H).
Defined.

(** X22. The studio form never shows the server's missing-fields error: what
    it lets through passes the server's validation. *)
Theorem handleGenerate_passes_validation env create schedule statusText
    (topic industry : string) (selectedFormats : list string)
    (examples : list value) (brandVoice : value) :
  handleGenerate (server env create schedule) statusText topic industry
    selectedFormats examples brandVoice
  ≠ Alert "Failed to generate content: Missing required fields: topic, industry, and at least one format are required. Please try again.".
Proof.
  unfold handleGenerate.
  destruct (String.eqb (JS.trim topic) "") eqn:Ht; [discriminate|].
  destruct (String.eqb (JS.trim industry) "") eqn:Hi; [discriminate|].
  destruct selectedFormats as [|f fs]; [discriminate|].
  cbn [orb length Nat.eqb].
  destruct (isSet (ANTHROPIC_API_KEY env)) eqn:Hkey.
  - unfold server.
    rewrite (POST_generate env create schedule _ (f :: fs) Hkey); try done.
    + cbn [fst].
      destruct (Promise_all _ schedule) as [[e|results]|] eqn:HP;
        [| |discriminate].
      * cbn. destruct (JS.includes _ _); discriminate.
      * cbn. discriminate.
    + cbn. destruct topic; [discriminate|reflexivity].
    + cbn. now rewrite Hi.
  - rewrite server_missing_key by exact Hkey. discriminate.
Qed.

(** X23. Without an API key on the server both forms end in their notice
    about the key, once their own checks pass: the server's message holds
    the name the forms look for. *)
Theorem missing_key_notice env create schedule statusText :
  isSet (ANTHROPIC_API_KEY env) = false →
  (∀ topic industry selectedFormats examples brandVoice,
     JS.trim topic ≠ "" → JS.trim industry ≠ "" → selectedFormats ≠ [] →
     handleGenerate (server env create schedule) statusText topic industry
       selectedFormats examples brandVoice
     = Alert "API key not configured. Please set ANTHROPIC_API_KEY in your .env.local file. See README for setup instructions.")
  ∧ (∀ examples,
       (2 ≤ length (validExamples examples))%nat →
       handleAnalyze (server env create schedule) statusText examples
       = Alert "API key not configured. Please set ANTHROPIC_API_KEY in your .env.local file.").
Proof.
  intros Hkey. split.
  - intros topic industry selectedFormats examples brandVoice Ht Hi Hf.
    unfold handleGenerate.
    apply String.eqb_neq in Ht, Hi. rewrite Ht, Hi.
    destruct selectedFormats; [contradiction|].
    cbn [orb length Nat.eqb].
    rewrite server_missing_key by exact Hkey. reflexivity.
  - intros examples Hlen. unfold handleAnalyze.
    destruct (Nat.ltb_spec (length (validExamples examples)) 2); [lia|].
    rewrite server_missing_key by exact Hkey. reflexivity.
Qed.

Lemma missing_key_notice_unset :
  handleAnalyze
    (server {| ANTHROPIC_API_KEY := None; CLAUDE_MODEL := None |}
       (replyWith directReply) [])
    (λ _, "Internal Server Error")
    [Some {| exType := TextType; exContent := "We ship fast." |}; None;
     Some {| exType := TextType; exContent := "No fluff." |}]
  = Alert "API key not configured. Please set ANTHROPIC_API_KEY in your .env.local file.".
Proof.
  refine (proj2 (missing_key_notice
                   {| ANTHROPIC_API_KEY := None; CLAUDE_MODEL := None |}
                   (replyWith directReply) [] (λ _, "Internal Server Error")
                   eq_refl) _ _).
  vm_compute. lia.
Defined.



Lemma get_formatExample_type e :
  get (formatExample e) "type" = VStr (typeName (exType e)).
Proof. unfold formatExample. destruct (exType e); reflexivity. Qed.



